(** * Collaborative editing core of the document platform

    A shallow embedding of [src/utils/collaboration.js]: the operational
    transform utilities, the reconciliation pass over the pending queue and
    the socket event handlers that maintain document sessions and cursors.

    JavaScript numbers that the code uses as offsets and counters are
    integers here ([Z]); strings are [string], one character per UTF-16
    code unit; the module-level [Map]s are finite maps and the per-document
    [Set] of user ids is a duplicate-free list in insertion order.  An
    operation carries every field the code reads, with the type the code
    expects of it.  Each handler runs to completion before the next event
    is taken: the interleavings that the [await]s of the asynchronous
    handlers allow are not part of this model. *)

From Stdlib Require Import ZArith Lia Ascii String.
From stdpp Require Import base option list strings pretty gmap.

Local Open Scope string_scope.
Local Open Scope list_scope.
Local Open Scope Z_scope.

(** ** JavaScript strings *)

Module JSString.

Fixpoint take (n : nat) (s : string) : string :=
  match n, s with
  | S k, String c r => String c (take k r)
  | _, _ => EmptyString
  end.

Fixpoint drop (n : nat) (s : string) : string :=
  match n, s with
  | S k, String _ r => drop k r
  | _, _ => s
  end.

(** Relative index of [String.prototype.slice]: a negative index counts
    from the end, and every index is clamped into [0, len]. *)
Definition relative_index (len k : Z) : Z :=
  if k <? 0 then Z.max (len + k) 0 else Z.min k len.

(** [s.slice(start, stop)] *)
Definition slice (s : string) (start stop : Z) : string :=
  let len := Z.of_nat (String.length s) in
  let from := relative_index len start in
  let to := relative_index len stop in
  take (Z.to_nat (Z.max (to - from) 0)) (drop (Z.to_nat from) s).

(** [s.slice(start)]: the end defaults to the length of the string. *)
Definition slice_from (s : string) (start : Z) : string :=
  slice s start (Z.of_nat (String.length s)).

End JSString.

(** ** Operations *)

Module Op.

(** An operation as it sits in the pending queue: the fields sent by the
    client and the three fields the [document-operation] handler adds. *)
Record t : Type := make {
  type : string;
  position : Z;
  content : string;
  length : Z;
  oldLength : Z;
  userId : string;
  timestamp : Z;
  id : string
}.

End Op.

Abbreviation Operation := Op.t.

(** [{...op, position: p}] *)
Definition with_position (op : Operation) (p : Z) : Operation :=
  {| Op.type := Op.type op; Op.position := p; Op.content := Op.content op;
     Op.length := Op.length op; Op.oldLength := Op.oldLength op;
     Op.userId := Op.userId op; Op.timestamp := Op.timestamp op;
     Op.id := Op.id op |}.

(** [{...op, length: l}] *)
Definition with_length (op : Operation) (l : Z) : Operation :=
  {| Op.type := Op.type op; Op.position := Op.position op;
     Op.content := Op.content op; Op.length := l;
     Op.oldLength := Op.oldLength op; Op.userId := Op.userId op;
     Op.timestamp := Op.timestamp op; Op.id := Op.id op |}.

Definition str_length (s : string) : Z := Z.of_nat (String.length s).

(** ** Operational transform utilities *)

Module OperationalTransform.

(** [transformOperation(op1, op2)]; [None] is the [null] of the
    overlapping-delete case. *)
Definition transformOperation (op1 op2 : Operation) : option Operation :=
  if (Op.type op1 =? "insert")%string && (Op.type op2 =? "insert")%string then
    if Op.position op1 <=? Op.position op2 then
      Some (with_position op2 (Op.position op2 + str_length (Op.content op1)))
    else Some op2
  else if (Op.type op1 =? "delete")%string && (Op.type op2 =? "insert")%string then
    if Op.position op1 <? Op.position op2 then
      Some (with_position op2
              (Z.max (Op.position op1) (Op.position op2 - Op.length op1)))
    else Some op2
  else if (Op.type op1 =? "insert")%string && (Op.type op2 =? "delete")%string then
    if Op.position op1 <=? Op.position op2 then
      Some (with_position op2 (Op.position op2 + str_length (Op.content op1)))
    else Some op2
  else if (Op.type op1 =? "delete")%string && (Op.type op2 =? "delete")%string then
    if Op.position op1 <? Op.position op2 then
      Some (with_length
              (with_position op2
                 (Z.max (Op.position op1) (Op.position op2 - Op.length op1)))
              (Op.length op2))
    else if Op.position op1 >=? Op.position op2 + Op.length op2 then
      Some (with_length (with_position op2 (Op.position op2)) (Op.length op2))
    else None
  else Some op2.

(** [applyOperation(content, operation)].  The [slice] calls and the
    concatenations of the three cases cannot throw on a string and
    integer offsets, so the [catch] branch is never taken and the function
    always returns a string. *)
Definition applyOperation (content : string) (operation : Operation) : string :=
  if (Op.type operation =? "insert")%string then
    JSString.slice content 0 (Op.position operation)
      +:+ Op.content operation
      +:+ JSString.slice_from content (Op.position operation)
  else if (Op.type operation =? "delete")%string then
    JSString.slice content 0 (Op.position operation)
      +:+ JSString.slice_from content
            (Op.position operation + Op.length operation)
  else if (Op.type operation =? "replace")%string then
    JSString.slice content 0 (Op.position operation)
      +:+ Op.content operation
      +:+ JSString.slice_from content
            (Op.position operation + Op.oldLength operation)
  else content.

End OperationalTransform.

Import OperationalTransform.

(** Operations as a client sends them to the server. *)
Definition insert_op (uid : string) (pos : Z) (text : string) : Operation :=
  Op.make "insert" pos text 0 0 uid 0 "".

Definition delete_op (uid : string) (pos len : Z) : Operation :=
  Op.make "delete" pos "" len 0 uid 0 "".

Definition replace_op (uid : string) (pos : Z) (text : string) (old : Z) : Operation :=
  Op.make "replace" pos text 0 old uid 0 "".


(** ** The document store

    The part of the Mongo collections that the collaboration layer reads
    and writes.  A document's [version] is a JavaScript value: the number it
    holds, or [None] for [undefined]. *)

Inductive JSNumber : Type :=
| Num (z : Z)
| NaN.

(** [v += 1] on a value that is a number or [undefined]. *)
Definition js_increment (v : option JSNumber) : JSNumber :=
  match v with
  | Some (Num z) => Num (z + 1)
  | Some NaN | None => NaN
  end.

Module Share.
Record t : Type := make {
  user : string;
  permission : string;
  isActive : bool;
  expiresAt : option Z
}.
End Share.

Module Doc.
Record t : Type := make {
  title : string;
  content : string;
  version : option JSNumber;
  updatedAt : Z;
  organization : string;
  status : string;
  owner : string;
  visibility : string;
  sharedWith : list Share.t
}.
End Doc.

Module User.
Record t : Type := make {
  name : string;
  email : string;
  organization : option string
}.
End User.

(** ** Sockets and the module-level maps *)

Module Socket.
Record t : Type := make {
  userId : string;
  user : User.t;
  organizationId : string;
  currentDocument : option string;
  documentPermission : option string;
  rooms : list string
}.
End Socket.

Module Activity.
Record t : Type := make {
  user : string;
  organization : string;
  action : string;
  resourceId : string;
  operation : string;
  position : Z;
  contentLength : Z
}.
End Activity.

Record World : Type := mkWorld {
  documents : gmap string Doc.t;
  users : gmap string User.t;
  sockets : gmap nat Socket.t;
  activeConnections : gmap string nat;
  documentSessions : gmap string (list string);
  documentLocks : gmap string (string * Z);
  userCursors : gmap string (gmap string Z);
  pendingOperations : gmap string (list Operation);
  timers : list (nat * string);
  activities : list Activity.t
}.

Definition empty_world (docs : gmap string Doc.t) (us : gmap string User.t) : World :=
  mkWorld docs us ∅ ∅ ∅ ∅ ∅ ∅ [] [].

Definition set_documents (w : World) (v : gmap string Doc.t) : World :=
  mkWorld v (users w) (sockets w) (activeConnections w) (documentSessions w)
    (documentLocks w) (userCursors w) (pendingOperations w) (timers w) (activities w).

Definition set_sockets (w : World) (v : gmap nat Socket.t) : World :=
  mkWorld (documents w) (users w) v (activeConnections w) (documentSessions w)
    (documentLocks w) (userCursors w) (pendingOperations w) (timers w) (activities w).

Definition set_activeConnections (w : World) (v : gmap string nat) : World :=
  mkWorld (documents w) (users w) (sockets w) v (documentSessions w)
    (documentLocks w) (userCursors w) (pendingOperations w) (timers w) (activities w).

Definition set_documentSessions (w : World) (v : gmap string (list string)) : World :=
  mkWorld (documents w) (users w) (sockets w) (activeConnections w) v
    (documentLocks w) (userCursors w) (pendingOperations w) (timers w) (activities w).

Definition set_documentLocks (w : World) (v : gmap string (string * Z)) : World :=
  mkWorld (documents w) (users w) (sockets w) (activeConnections w)
    (documentSessions w) v (userCursors w) (pendingOperations w) (timers w)
    (activities w).

Definition set_userCursors (w : World) (v : gmap string (gmap string Z)) : World :=
  mkWorld (documents w) (users w) (sockets w) (activeConnections w)
    (documentSessions w) (documentLocks w) v (pendingOperations w) (timers w)
    (activities w).

Definition set_pendingOperations (w : World) (v : gmap string (list Operation)) : World :=
  mkWorld (documents w) (users w) (sockets w) (activeConnections w)
    (documentSessions w) (documentLocks w) (userCursors w) v (timers w)
    (activities w).

Definition set_timers (w : World) (v : list (nat * string)) : World :=
  mkWorld (documents w) (users w) (sockets w) (activeConnections w)
    (documentSessions w) (documentLocks w) (userCursors w) (pendingOperations w) v
    (activities w).

Definition set_activities (w : World) (v : list Activity.t) : World :=
  mkWorld (documents w) (users w) (sockets w) (activeConnections w)
    (documentSessions w) (documentLocks w) (userCursors w) (pendingOperations w)
    (timers w) v.

(** [Set.prototype.add] and [Set.prototype.delete] on an insertion-ordered
    set. *)
Definition set_add (x : string) (l : list string) : list string :=
  if decide (x ∈ l) then l else l ++ [x].

Definition set_delete (x : string) (l : list string) : list string :=
  filter (λ y, y ≠ x) l.

(** ** Access check *)

Inductive AccessCheck : Type :=
| Granted (document : Doc.t) (role : string) (permission : option string)
| Denied (error : string).

(** The property names every object literal inherits from
    [Object.prototype]. *)
Definition inherited_names : list string :=
  [ "constructor"; "__defineGetter__"; "__defineSetter__"; "hasOwnProperty";
    "__lookupGetter__"; "__lookupSetter__"; "isPrototypeOf";
    "propertyIsEnumerable"; "toString"; "valueOf"; "__proto__";
    "toLocaleString" ].

(** [permissionLevels[p] || 1] as the number a comparison sees.  The own
    keys give 1, 2 and 3; an inherited name gives a function or an object,
    which is truthy and converts to [NaN]; any other key gives [undefined]
    and so 1. *)
Definition permissionLevel (p : string) : JSNumber :=
  if (p =? "view")%string then Num 1
  else if (p =? "comment")%string then Num 2
  else if (p =? "edit")%string then Num 3
  else if bool_decide (p ∈ inherited_names) then NaN
  else Num 1.

(** [a < b] on numbers: false as soon as one side is [NaN]. *)
Definition js_lt (a b : JSNumber) : bool :=
  match a, b with
  | Num x, Num y => x <? y
  | _, _ => false
  end.

(** [checkDocumentAccess(userId, documentId, organizationId, permission)]
    evaluated at time [now].  [populate('owner', ...)] leaves [owner] null
    when the owning user is gone; reading [document.owner.organization] then
    throws and the [catch] answers 'Access check failed'. *)
Definition checkDocumentAccess (w : World) (now : Z)
    (userId documentId organizationId permission : string) : AccessCheck :=
  match documents w !! documentId with
  | None => Denied "Document not found"
  | Some document =>
    if negb ((Doc.organization document =? organizationId)%string
             && negb (Doc.status document =? "deleted")%string)
    then Denied "Document not found"
    else if negb (Doc.organization document =? organizationId)%string
    then Denied "Cross-organization access denied"
    else
      match users w !! Doc.owner document with
      | None => Denied "Access check failed"
      | Some owner =>
        if match User.organization owner with
           | Some o => negb (o =? organizationId)%string
           | None => false
           end
        then Denied "Document owner organization mismatch"
        else if (Doc.owner document =? userId)%string
        then Granted document "owner" None
        else
          match List.find (λ share, (Share.user share =? userId)%string
                                    && Share.isActive share)
                          (Doc.sharedWith document) with
          | None =>
            if (Doc.visibility document =? "organization")%string
               && (permission =? "view")%string
            then Granted document "viewer" None
            else Denied "Access denied"
          | Some sharedAccess =>
            if match Share.expiresAt sharedAccess with
               | Some e => e <? now
               | None => false
               end
            then Denied "Access expired"
            else if js_lt (permissionLevel (Share.permission sharedAccess))
                          (permissionLevel permission)
            then Denied "Insufficient permissions"
            else Granted document "collaborator"
                   (Some (Share.permission sharedAccess))
          end
      end
  end.

(** ** Reconciliation pass *)

(** The inner loop [for (let j = 0; j < i; j++)]: [steps] iterations remain
    and [j] is the current index.  An index past the end of [processedOps]
    reads [undefined] and is skipped; a [null] transform breaks out. *)
Fixpoint transform_against (processedOps : list Operation) (j : nat)
    (steps : nat) (transformedOp : Operation) : option Operation :=
  match steps with
  | O => Some transformedOp
  | S k =>
    match processedOps !! j with
    | Some prevOp =>
      match transformOperation prevOp transformedOp with
      | Some t => transform_against processedOps (S j) k t
      | None => None
      end
    | None => transform_against processedOps (S j) k transformedOp
    end
  end.

(** The outer loop over [operations], from index [i] on. *)
Fixpoint process_loop (operations : list Operation) (i : nat)
    (content : string) (processedOps : list Operation)
    : string * list Operation :=
  match operations with
  | [] => (content, processedOps)
  | currentOp :: rest =>
    match transform_against processedOps 0 i currentOp with
    | Some transformedOp =>
      process_loop rest (S i) (applyOperation content transformedOp)
        (processedOps ++ [transformedOp])
    | None => process_loop rest (S i) content processedOps
    end
  end.

Inductive PassResult : Type :=
| PassSuccess (newContent : string) (version : JSNumber)
| PassFailure (error : string).

(** [processPendingOperations(documentId)] run at time [now].  [saveError]
    is the outcome of [document.save()]: [None] when it succeeds, the
    message of the error it throws otherwise.  The result [None] is the
    [undefined] of the two early returns.  [Doc.version] is the value
    [document.version] has on the loaded document; the schema of
    [models/Document.js] declares no such path, so a document loaded from
    the store has [None] there, and [document.save()] writes [content] and
    [updatedAt] but not the incremented [version]. *)
Definition processPendingOperations (now : Z) (saveError : option string)
    (documentId : string) (w : World) : World * option PassResult :=
  let operations := default [] (pendingOperations w !! documentId) in
  if decide (List.length operations = 0%nat) then (w, None)
  else
    match documents w !! documentId with
    | None => (w, None)
    | Some document =>
      let '(content, _) := process_loop operations 0 (Doc.content document) [] in
      let version := js_increment (Doc.version document) in
      match saveError with
      | Some message => (w, Some (PassFailure message))
      | None =>
        let saved :=
          Doc.make (Doc.title document) content (Doc.version document) now
            (Doc.organization document) (Doc.status document)
            (Doc.owner document) (Doc.visibility document)
            (Doc.sharedWith document) in
        let w1 := set_documents w (<[documentId := saved]> (documents w)) in
        let w2 := set_pendingOperations w1 (delete documentId (pendingOperations w1)) in
        (w2, Some (PassSuccess content version))
      end
    end.

(** ** Outbound events *)

(** [socket.emit(...)] reaches the socket itself; [socket.to(room).emit(...)]
    reaches every socket in the room of the document except the sender. *)
Inductive Target : Type :=
| ToSocket (s : nat)
| ToRoomExcept (documentId : string) (s : nat).

Module ActiveUser.
Record t : Type := make {
  id : string;
  name : string;
  email : string;
  permission : option string;
  cursor : option Z
}.
End ActiveUser.

Inductive Payload : Type :=
| ErrorMessage (message : string)
| DocumentJoined (id title content : string) (version : option JSNumber)
    (lastModified : Z) (activeUsers : list ActiveUser.t)
    (permission : option string)
| UserJoined (id name email : string) (permission : option string)
| DocumentOperation (operation : Operation) (id name : string)
| DocumentUpdated (content : string) (version : JSNumber)
| CursorUpdate (userId userName : string) (position : Z)
| UserLeft (userId userName : string).

Definition Emit : Type := Target * Payload.

(** A [documentId] taken from an event payload: [undefined] and the empty
    string are falsy. *)
Definition truthy (documentId : option string) : option string :=
  match documentId with
  | Some d => if (d =? "")%string then None else Some d
  | None => None
  end.

Definition update_socket (w : World) (s : nat) (socket : Socket.t) : World :=
  set_sockets w (<[s := socket]> (sockets w)).

(** ** Socket event handlers *)

(** [io.on('connection', ...)] for a socket that passed
    [authenticateSocket]. *)
Definition connection (s : nat) (userId : string) (user : User.t)
    (organizationId : string) (w : World) : World * list Emit :=
  match sockets w !! s with
  | Some _ => (w, [])
  | None =>
    let socket := Socket.make userId user organizationId None None [] in
    let w1 := update_socket w s socket in
    (set_activeConnections w1 (<[userId := s]> (activeConnections w1)), [])
  end.

(** The entry of [activeUsers] for one member of the session. *)
Definition active_user (w : World) (documentId userId : string)
    : option ActiveUser.t :=
  match activeConnections w !! userId with
  | None => None
  | Some sid =>
    match sockets w !! sid with
    | None => None
    | Some userSocket =>
      Some (ActiveUser.make userId
              (User.name (Socket.user userSocket))
              (User.email (Socket.user userSocket))
              (Socket.documentPermission userSocket)
              (match default ∅ (userCursors w !! documentId) !! userId with
               | Some p => if p =? 0 then None else Some p
               | None => None
               end))
    end
  end.

(** [socket.on('join-document', ...)] *)
Definition join_document (now : Z) (s : nat) (documentId : option string)
    (w : World) : World * list Emit :=
  match sockets w !! s with
  | None => (w, [])
  | Some socket =>
    match truthy documentId with
    | None => (w, [(ToSocket s, ErrorMessage "Document ID required")])
    | Some documentId =>
      match checkDocumentAccess w now (Socket.userId socket) documentId
              (Socket.organizationId socket) "view" with
      | Denied error => (w, [(ToSocket s, ErrorMessage error)])
      | Granted document _ permission =>
        let joined :=
          Socket.make (Socket.userId socket) (Socket.user socket)
            (Socket.organizationId socket) (Some documentId) permission
            (set_add documentId (Socket.rooms socket)) in
        let w1 := update_socket w s joined in
        let members :=
          set_add (Socket.userId socket)
            (default [] (documentSessions w1 !! documentId)) in
        let w2 :=
          set_documentSessions w1 (<[documentId := members]> (documentSessions w1)) in
        let w3 :=
          match userCursors w2 !! documentId with
          | Some _ => w2
          | None => set_userCursors w2 (<[documentId := ∅]> (userCursors w2))
          end in
        let activeUsers := omap (active_user w3 documentId) members in
        (w3,
         [(ToSocket s,
           DocumentJoined documentId (Doc.title document) (Doc.content document)
             (Doc.version document) (Doc.updatedAt document) activeUsers
             permission);
          (ToRoomExcept documentId s,
           UserJoined (Socket.userId socket) (User.name (Socket.user socket))
             (User.email (Socket.user socket)) permission)])
      end
    end
  end.

(** [socket.on('cursor-position', ...)]; a [position] of [None] is
    [undefined]. *)
Definition cursor_position (s : nat) (documentId : option string)
    (position : option Z) (w : World) : World * list Emit :=
  match sockets w !! s with
  | None => (w, [])
  | Some socket =>
    match truthy documentId, position with
    | Some documentId, Some position =>
      match userCursors w !! documentId with
      | Some cursors =>
        (set_userCursors w
           (<[documentId := <[Socket.userId socket := position]> cursors]>
              (userCursors w)),
         [(ToRoomExcept documentId s,
           CursorUpdate (Socket.userId socket)
             (User.name (Socket.user socket)) position)])
      | None => (w, [])
      end
    | _, _ => (w, [])
    end
  end.

(** The clean-up shared by [leave-document] and [disconnect]: drop the user
    from the session, clear the maps of a session left empty, then remove
    the user's cursor. *)
Definition remove_from_session (userId documentId : string) (w : World) : World :=
  let w1 :=
    match documentSessions w !! documentId with
    | Some members =>
      let members' := set_delete userId members in
      if decide (List.length members' = 0%nat) then
        set_documentLocks
          (set_userCursors
             (set_documentSessions w (delete documentId (documentSessions w)))
             (delete documentId (userCursors w)))
          (delete documentId (documentLocks w))
      else
        set_documentSessions w (<[documentId := members']> (documentSessions w))
    | None => w
    end in
  match userCursors w1 !! documentId with
  | Some cursors =>
    set_userCursors w1 (<[documentId := delete userId cursors]> (userCursors w1))
  | None => w1
  end.

(** [socket.on('leave-document', ...)] *)
Definition leave_document (s : nat) (documentId : option string) (w : World)
    : World * list Emit :=
  match sockets w !! s with
  | None => (w, [])
  | Some socket =>
    match truthy documentId with
    | None => (w, [])
    | Some documentId =>
      if decide (Socket.currentDocument socket = Some documentId) then
        let w1 := remove_from_session (Socket.userId socket) documentId w in
        let left_ :=
          Socket.make (Socket.userId socket) (Socket.user socket)
            (Socket.organizationId socket) None None
            (set_delete documentId (Socket.rooms socket)) in
        (update_socket w1 s left_,
         [(ToRoomExcept documentId s,
           UserLeft (Socket.userId socket) (User.name (Socket.user socket)))])
      else (w, [])
    end
  end.

(** [socket.on('disconnect', ...)]; the socket is gone afterwards. *)
Definition disconnect (s : nat) (w : World) : World * list Emit :=
  match sockets w !! s with
  | None => (w, [])
  | Some socket =>
    let w1 :=
      set_activeConnections w (delete (Socket.userId socket) (activeConnections w)) in
    match truthy (Socket.currentDocument socket) with
    | Some documentId =>
      let w2 := remove_from_session (Socket.userId socket) documentId w1 in
      (set_sockets w2 (delete s (sockets w2)),
       [(ToRoomExcept documentId s,
         UserLeft (Socket.userId socket) (User.name (Socket.user socket)))])
    | None => (set_sockets w1 (delete s (sockets w1)), [])
    end
  end.

(** The values the schema of [models/Activity.js] allows for [action]. *)
Definition activity_actions : list string :=
  [ "document_created"; "document_updated"; "document_viewed";
    "document_shared"; "document_unshared"; "document_deleted";
    "document_restored"; "document_archived"; "document_published";
    "document_duplicated"; "document_exported"; "version_created";
    "version_restored"; "version_viewed"; "version_compared";
    "activity_viewed"; "organization_activity_viewed"; "user_invited";
    "user_removed"; "user_role_changed"; "organization_created";
    "organization_updated"; "login"; "logout"; "password_changed";
    "profile_updated" ].

(** The [category] of a record handed to [Activity.create]: the schema
    requires one, and the record built by the [document-operation] handler
    carries none. *)
Definition activity_category (record : Activity.t) : option string := None.

(** [Activity.create(record)] on the log: the record is validated against
    the schema and stored, or the call rejects ([None]). *)
Definition activity_create (log : list Activity.t) (record : Activity.t)
    : option (list Activity.t) :=
  if bool_decide (Activity.action record ∈ activity_actions)
     && bool_decide (is_Some (activity_category record))
  then Some (log ++ [record])
  else None.

(** [socket.on('document-operation', ...)] at time [now]; [random] is the
    rendering of [Math.random()] that ends the operation id.  The timer set
    by [setTimeout] is queued in [timers]; all timers share the 500ms delay
    and so fire in the order they were set.  When [Activity.create]
    rejects, the [catch] of the handler tells the sender 'Failed to process
    operation'; the operation is queued and relayed by then. *)
Definition document_operation (now : Z) (random : string) (s : nat)
    (documentId : option string) (operation : option Operation) (w : World)
    : World * list Emit :=
  match sockets w !! s with
  | None => (w, [])
  | Some socket =>
    match truthy documentId, operation with
    | Some documentId, Some operation =>
      match checkDocumentAccess w now (Socket.userId socket) documentId
              (Socket.organizationId socket) "edit" with
      | Denied error => (w, [(ToSocket s, ErrorMessage error)])
      | Granted _ _ _ =>
        let operationWithMeta :=
          Op.make (Op.type operation) (Op.position operation)
            (Op.content operation) (Op.length operation)
            (Op.oldLength operation) (Socket.userId socket) now
            (Socket.userId socket +:+ "-" +:+ pretty now +:+ "-" +:+ random) in
        let queue : list Operation :=
          (default [] (pendingOperations w !! documentId) ++ [operationWithMeta]) in
        let w1 :=
          set_pendingOperations w (<[documentId := queue]> (pendingOperations w)) in
        let w2 := set_timers w1 (timers w1 ++ [(s, documentId)]) in
        let contentLength :=
          if str_length (Op.content operation) =? 0 then Op.length operation
          else str_length (Op.content operation) in
        let record :=
          Activity.make (Socket.userId socket) (Socket.organizationId socket)
            "document_edit" documentId (Op.type operation)
            (Op.position operation) contentLength in
        let relay :=
          (ToRoomExcept documentId s,
           DocumentOperation operationWithMeta (Socket.userId socket)
             (User.name (Socket.user socket))) in
        match activity_create (activities w2) record with
        | Some log => (set_activities w2 log, [relay])
        | None =>
          (w2, [relay; (ToSocket s, ErrorMessage "Failed to process operation")])
        end
      end
    | _, _ => (w, [(ToSocket s, ErrorMessage "Document ID and operation required")])
    end
  end.

(** The callback of the oldest pending timer. *)
Definition timer_fired (now : Z) (saveError : option string) (w : World)
    : World * list Emit :=
  match timers w with
  | [] => (w, [])
  | (s, documentId) :: rest =>
    let '(w1, result) :=
      processPendingOperations now saveError documentId (set_timers w rest) in
    match result with
    | Some (PassSuccess newContent version) =>
      (w1,
       [(ToRoomExcept documentId s, DocumentUpdated newContent version);
        (ToSocket s, DocumentUpdated newContent version)])
    | _ => (w1, [])
    end
  end.

(** ** Event traces *)

Inductive Event : Type :=
| Connection (s : nat) (userId : string) (user : User.t) (organizationId : string)
| JoinDocument (now : Z) (s : nat) (documentId : option string)
| OperationSent (now : Z) (random : string) (s : nat)
    (documentId : option string) (operation : option Operation)
| CursorPosition (s : nat) (documentId : option string) (position : option Z)
| LeaveDocument (s : nat) (documentId : option string)
| Disconnect (s : nat)
| TimerFired (now : Z) (saveError : option string).

Definition step (e : Event) (w : World) : World * list Emit :=
  match e with
  | Connection s userId user organizationId =>
    connection s userId user organizationId w
  | JoinDocument now s documentId => join_document now s documentId w
  | OperationSent now random s documentId operation =>
    document_operation now random s documentId operation w
  | CursorPosition s documentId position => cursor_position s documentId position w
  | LeaveDocument s documentId => leave_document s documentId w
  | Disconnect s => disconnect s w
  | TimerFired now saveError => timer_fired now saveError w
  end.

(** Handle the events of a trace one after another, collecting what is
    emitted. *)
Fixpoint run (es : list Event) (w : World) : World * list Emit :=
  match es with
  | [] => (w, [])
  | e :: rest =>
    let '(w1, out1) := step e w in
    let '(w2, out2) := run rest w1 in
    (w2, out1 ++ out2)
  end.

(** ** Views of the session state *)

Definition members (w : World) (documentId : string) : list string :=
  default [] (documentSessions w !! documentId).

Definition cursors (w : World) (documentId : string) : gmap string Z :=
  default ∅ (userCursors w !! documentId).

(** The membership/presence invariant: every principal with a cursor entry
    for a document is a member of that document's session. *)
Definition presence_invariant (w : World) : Prop :=
  ∀ documentId userId,
    is_Some (cursors w documentId !! userId) → userId ∈ members w documentId.

Definition is_user_left (e : Emit) : bool :=
  match snd e with
  | UserLeft _ _ => true
  | _ => false
  end.

Definition is_document_updated (e : Emit) : bool :=
  match snd e with
  | DocumentUpdated _ _ => true
  | _ => false
  end.

(** ** Scenarios *)

(** Apply [first], then the transform of [second] against it; [None] when
    the transform reports a conflict. *)
Definition apply_then_transformed (base : string) (first second : Operation)
    : option string :=
  match transformOperation first second with
  | Some second' => Some (applyOperation (applyOperation base first) second')
  | None => None
  end.

(** The characters of [s] before offset [n], then [text], then the rest. *)
Definition insert_at (n : nat) (text s : string) : string :=
  JSString.take n s +:+ text +:+ JSString.drop n s.

(** The half-open ranges [position, position + length) of two deletes
    share a character. *)
Definition ranges_overlap (op1 op2 : Operation) : Prop :=
  Op.position op1 < Op.position op2 + Op.length op2
  ∧ Op.position op2 < Op.position op1 + Op.length op1.

Definition opA : Operation := insert_op "A" 0 "X".
Definition opB : Operation := insert_op "B" 0 "Y".

Definition del_first : Operation := delete_op "A" 0 3.
Definition del_second : Operation := delete_op "B" 1 3.

(** A store with two documents of organization "org1", both owned by
    alice and visible across the organization; bob may edit "doc1" through
    a share, mallory belongs to another organization. *)
Definition alice : User.t := User.make "Alice" "alice@org1.example" (Some "org1").
Definition bob : User.t := User.make "Bob" "bob@org1.example" (Some "org1").
Definition mallory : User.t := User.make "Mallory" "mallory@org2.example" (Some "org2").

Definition sample_users : gmap string User.t :=
  <["alice" := alice]> (<["bob" := bob]> (<["mallory" := mallory]> ∅)).

Definition sample_doc (title content : string) (version : option JSNumber) : Doc.t :=
  Doc.make title content version 0 "org1" "draft" "alice" "organization"
    [Share.make "bob" "edit" true None].

Definition sample_store (content : string) (version : option JSNumber)
    : gmap string Doc.t :=
  <["doc1" := sample_doc "Notes" content version]>
    (<["doc2" := sample_doc "Plan" "" version]> ∅).

Definition sample_world (content : string) (version : option JSNumber) : World :=
  empty_world (sample_store content version) sample_users.

(** The queue of the scenario: A appends " world", B prepends ">> ". *)
Definition scenario_A : Operation := insert_op "A" 5 " world".
Definition scenario_B : Operation := insert_op "B" 0 ">> ".

Definition scenario_world : World :=
  set_pendingOperations (sample_world "hello" (Some (Num 1)))
    (<["doc1" := [scenario_A; scenario_B]]> ∅).

(** The same two operations sent over the sockets of alice and bob. *)
Definition scenario_trace : list Event :=
  [ Connection 1 "alice" alice "org1";
    Connection 2 "bob" bob "org1";
    JoinDocument 10 1 (Some "doc1");
    JoinDocument 11 2 (Some "doc1");
    OperationSent 20 "0.25" 1 (Some "doc1") (Some scenario_A);
    OperationSent 21 "0.75" 2 (Some "doc1") (Some scenario_B);
    TimerFired 520 None ].

(** Ten one-character inserts at the front of the document. *)
Definition ten_inserts : list Operation :=
  map (λ k, insert_op "A" 0 (String (ascii_of_nat (48 + k)) "")) (seq 0 10).


(** alice joins "doc1" while a second socket is connected that joins
    nothing; then that socket sends a cursor position for "doc1". *)
Definition session_with_stranger (userId : string) (user : User.t)
    (organizationId : string) : list Event :=
  [ Connection 1 "alice" alice "org1";
    Connection 2 userId user organizationId;
    JoinDocument 10 1 (Some "doc1") ].

Definition stray_cursor : Event := CursorPosition 2 (Some "doc1") (Some 7).

(** alice joins "doc1" and places her cursor; then she joins "doc2" over
    the same socket. *)
Definition first_join_trace : list Event :=
  [ Connection 1 "alice" alice "org1";
    JoinDocument 10 1 (Some "doc1");
    CursorPosition 1 (Some "doc1") (Some 3) ].

Definition second_join : Event := JoinDocument 12 1 (Some "doc2").

(** The [document-updated] events among the emitted ones. *)
Definition document_updates (out : list Emit) : list Emit :=
  filter (λ e, is_document_updated e = true) out.

(** An event does not put a cursor where the sender is no member: this
    holds of every event but a [cursor-position] for a document whose
    session does not list the sender. *)
Definition cursor_from_member (e : Event) (w : World) : Prop :=
  match e with
  | CursorPosition s (Some documentId) (Some _) =>
    ∀ socket, sockets w !! s = Some socket →
      Socket.userId socket ∈ members w documentId
  | _ => True
  end.

(** Every [cursor-position] of the trace comes from a member, each event
    taken in the state it arrives in. *)
Fixpoint cursors_from_members (es : list Event) (w : World) : Prop :=
  match es with
  | [] => True
  | e :: rest => cursor_from_member e w ∧ cursors_from_members rest (fst (step e w))
  end.

(** ** The pass as a fold *)

(** [op] transformed against every operation of [processedOps] in turn. *)
Definition transform_all (processedOps : list Operation) (op : Operation)
    : option Operation :=
  foldl (λ acc prevOp, acc ≫= transformOperation prevOp) (Some op) processedOps.

(** The outer loop without its index: each operation is transformed against
    all the operations accepted before it. *)
Definition process_fold (operations : list Operation) (content : string)
    (processedOps : list Operation) : string * list Operation :=
  foldl (λ (st : string * list Operation) currentOp,
           match transform_all (snd st) currentOp with
           | Some transformedOp =>
             (applyOperation (fst st) transformedOp, snd st ++ [transformedOp])
           | None => st
           end)
        (content, processedOps) operations.

(** The operations of a list applied one after another. *)
Definition apply_all (ops : list Operation) (content : string) : string :=
  foldl applyOperation content ops.

(** The characters of [s] without the [len] ones from offset [n] on. *)
Definition delete_at (n len : nat) (s : string) : string :=
  JSString.take n s +:+ JSString.drop (n + len) s.

(** ** Shape of the session maps *)

(** What the handlers keep true of [documentSessions], [userCursors] and
    [documentLocks]: a document has a cursor map exactly when it has a
    session, no session is empty, no member is listed twice, and no lock is
    ever stored. *)
Definition sessions_wf (w : World) : Prop :=
  (∀ documentId,
     is_Some (userCursors w !! documentId)
     ↔ is_Some (documentSessions w !! documentId))
  ∧ (∀ documentId members,
       documentSessions w !! documentId = Some members →
       members ≠ [] ∧ NoDup members)
  ∧ documentLocks w = ∅.

(** The document whose session an event can change: the one it names, or
    for a disconnect the current document of the socket. *)
Definition event_document (e : Event) (w : World) : option string :=
  match e with
  | JoinDocument _ _ documentId => documentId
  | CursorPosition _ documentId _ => documentId
  | LeaveDocument _ documentId => documentId
  | Disconnect s => sockets w !! s ≫= Socket.currentDocument
  | _ => None
  end.

(** ** Authentication of a socket *)

Module Organization.
(** An organization as [populate('organization', 'name domain isActive
    subscription')] returns it; [subscription] is [None] when the object is
    missing, and holds the [status] field, itself possibly undefined. *)
Record t : Type := make {
  name : string;
  domain : string;
  isActive : bool;
  subscription : option (option string)
}.
End Organization.

Module Account.
(** A stored user: the profile the handlers read, and [isActive]. *)
Record t : Type := make {
  profile : User.t;
  isActive : bool
}.
End Account.

Module Handshake.
(** [socket.handshake.auth.token] and
    [socket.handshake.headers.authorization]. *)
Record t : Type := make {
  authToken : option string;
  authorization : option string
}.
End Handshake.

Inductive AuthOutcome : Type :=
| Authenticated (userId : string) (user : User.t)
    (organizationId organizationDomain : string)
| Rejected (message : string).

(** [s.replace(pattern, replacement)] with a string pattern: the first
    occurrence is replaced. *)
Fixpoint replace_first (pattern replacement s : string) : string :=
  if String.prefix pattern s then
    replacement +:+ JSString.drop (String.length pattern) s
  else
    match s with
    | EmptyString => EmptyString
    | String c r => String c (replace_first pattern replacement r)
    end.

Section authentication.

(** [jwt.verify(token, process.env.JWT_SECRET)]: [None] when it throws,
    otherwise the [id] of the decoded payload, [None] when the payload has
    none. *)
Variable verify : string → option (option string).

Variable accounts : gmap string Account.t.
Variable organizations : gmap string Organization.t.

(** [authenticateSocket(socket, next)]: the fields set on the socket
    before [next()], or the message of the error handed to [next]. *)
Definition authenticateSocket (handshake : Handshake.t) : AuthOutcome :=
  let token :=
    match truthy (Handshake.authToken handshake) with
    | Some t => Some t
    | None => replace_first "Bearer " "" <$> Handshake.authorization handshake
    end in
  match truthy token with
  | None => Rejected "Authentication token required"
  | Some token =>
    match verify token with
    | None => Rejected "Authentication failed"
    | Some decodedId =>
      match decodedId ≫= (λ id, (λ account, (id, account)) <$> accounts !! id) with
      | None => Rejected "User not found or inactive"
      | Some (id, account) =>
        if negb (Account.isActive account)
        then Rejected "User not found or inactive"
        else
          match User.organization (Account.profile account)
                  ≫= (λ oid, (λ o, (oid, o)) <$> organizations !! oid) with
          | None => Rejected "User organization not found"
          | Some (organizationId, organization) =>
            if negb (Organization.isActive organization)
            then Rejected "Organization is inactive"
            else if match Organization.subscription organization with
                    | Some (Some status) => negb (status =? "active")%string
                    | Some None => true
                    | None => false
                    end
            then Rejected "Organization subscription is not active"
            else Authenticated id (Account.profile account) organizationId
                   (Organization.domain organization)
          end
      end
    end
  end.

End authentication.

(** * Properties *)

(** ** Facts about JavaScript strings *)

Section string_facts.
Import JSString.

Lemma append_cons (c : ascii) (a b : string) :
  String c a +:+ b = String c (a +:+ b).
Proof. reflexivity. Qed.

Lemma append_nil_l (s : string) : "" +:+ s = s.
Proof. reflexivity. Qed.

Lemma append_nil_r (s : string) : s +:+ "" = s.
Proof.
  induction s as [|c s IH]; [done |]. by rewrite append_cons, IH.
Qed.

Lemma append_assoc (a b c : string) : (a +:+ b) +:+ c = a +:+ (b +:+ c).
Proof.
  induction a as [|x a IH]; [done |]. by rewrite !append_cons, IH.
Qed.

Lemma length_append (a b : string) :
  String.length (a +:+ b) = (String.length a + String.length b)%nat.
Proof.
  induction a as [|x a IH]; [done |]. rewrite append_cons. simpl. by rewrite IH.
Qed.

Lemma take_drop (n : nat) (s : string) : take n s +:+ drop n s = s.
Proof.
  revert n; induction s as [|c s IH]; intros [|n]; simpl; try done.
  by rewrite append_cons, IH.
Qed.

Lemma take_ge (n : nat) (s : string) :
  (String.length s ≤ n)%nat → take n s = s.
Proof.
  revert n; induction s as [|c s IH]; intros [|n] Hn; simpl in *; try done.
  - lia.
  - rewrite IH; [done | lia].
Qed.

Lemma drop_ge (n : nat) (s : string) :
  (String.length s ≤ n)%nat → drop n s = "".
Proof.
  revert n; induction s as [|c s IH]; intros [|n] Hn; simpl in *; try done.
  - lia.
  - apply IH; lia.
Qed.

Lemma length_take (n : nat) (s : string) :
  String.length (take n s) = Nat.min n (String.length s).
Proof.
  revert n; induction s as [|c s IH]; intros [|n]; simpl; try done.
  by f_equal.
Qed.

Lemma length_drop (n : nat) (s : string) :
  String.length (drop n s) = (String.length s - n)%nat.
Proof.
  revert n; induction s as [|c s IH]; intros [|n]; simpl; try done.
Qed.

Lemma take_min (n : nat) (s : string) :
  take (Nat.min n (String.length s)) s = take n s.
Proof.
  revert n; induction s as [|c s IH]; intros [|n]; simpl; try done.
  by f_equal.
Qed.

Lemma drop_min (n : nat) (s : string) :
  drop (Nat.min n (String.length s)) s = drop n s.
Proof.
  revert n; induction s as [|c s IH]; intros [|n]; simpl; try done.
Qed.

(** Splitting a concatenation at or after the end of its first part. *)
Lemma take_append (x r : string) (n : nat) :
  take (String.length x + n) (x +:+ r) = x +:+ take n r.
Proof.
  induction x as [|c x IH]; [done |]. rewrite !append_cons. simpl. by rewrite IH.
Qed.

Lemma drop_append (x r : string) (n : nat) :
  drop (String.length x + n) (x +:+ r) = drop n r.
Proof.
  induction x as [|c x IH]; [done |]. rewrite append_cons. simpl. by rewrite IH.
Qed.

(** [s.slice(0, p)] and [s.slice(p)] for a non-negative offset. *)
Lemma slice_prefix (s : string) (p : Z) :
  0 ≤ p → slice s 0 p = take (Z.to_nat p) s.
Proof.
  intros Hp. unfold slice, relative_index.
  replace (0 <? 0) with false by done.
  destruct (p <? 0) eqn:E; [lia |].
  replace (Z.to_nat (Z.min 0 (Z.of_nat (String.length s)))) with 0%nat by lia.
  simpl drop.
  replace (Z.to_nat (Z.max (Z.min p (Z.of_nat (String.length s))
                            - Z.min 0 (Z.of_nat (String.length s))) 0))
    with (Nat.min (Z.to_nat p) (String.length s)) by lia.
  apply take_min.
Qed.

Lemma slice_suffix (s : string) (p : Z) :
  0 ≤ p → slice_from s p = drop (Z.to_nat p) s.
Proof.
  intros Hp. unfold slice_from, slice, relative_index.
  destruct (p <? 0) eqn:E; [lia |].
  destruct (Z.ltb_spec (Z.of_nat (String.length s)) 0) as [E'|E']; [lia |].
  replace (Z.to_nat (Z.min p (Z.of_nat (String.length s))))
    with (Nat.min (Z.to_nat p) (String.length s)) by lia.
  rewrite drop_min. apply take_ge. rewrite length_drop. lia.
Qed.

End string_facts.

(** ** Operational transform *)

Example apply_insert_mid :
  applyOperation "hello" (insert_op "u" 2 "XY") = "heXYllo".
Proof. reflexivity. Qed.

Example apply_delete_mid :
  applyOperation "hello" (delete_op "u" 1 3) = "ho".
Proof. reflexivity. Qed.

Example apply_replace_mid :
  applyOperation "hello" (replace_op "u" 1 "EY" 3) = "hEYo".
Proof. reflexivity. Qed.

Example apply_negative_position :
  applyOperation "hello" (insert_op "u" (-2) "X") = "helXlo".
Proof. reflexivity. Qed.

Section transform_facts.
Import JSString.

Lemma with_position_same (op : Operation) :
  with_position op (Op.position op) = op.
Proof. by destruct op. Qed.

Lemma with_length_id (op : Operation) : with_length op (Op.length op) = op.
Proof. by destruct op. Qed.

(** Whatever [transformOperation] returns is [op2] with a new position. *)
Lemma transform_shape (op1 op2 r : Operation) :
  transformOperation op1 op2 = Some r →
  r = with_position op2 (Op.position r).
Proof.
  unfold transformOperation. intros H.
  repeat case_match; simplify_eq; simpl;
    by rewrite ?with_position_same, ?with_length_id.
Qed.

Lemma apply_insert (s : string) (op : Operation) :
  Op.type op = "insert" → 0 ≤ Op.position op →
  applyOperation s op = insert_at (Z.to_nat (Op.position op)) (Op.content op) s.
Proof.
  intros Ht Hp. unfold applyOperation, insert_at. rewrite Ht. simpl.
  by rewrite slice_prefix, slice_suffix.
Qed.

Lemma take_append_exact (x r : string) : take (String.length x) (x +:+ r) = x.
Proof.
  rewrite <- (Nat.add_0_r (String.length x)), take_append.
  destruct r; apply append_nil_r.
Qed.

Lemma drop_append_exact (x r : string) : drop (String.length x) (x +:+ r) = r.
Proof.
  rewrite <- (Nat.add_0_r (String.length x)), drop_append. by destruct r.
Qed.

(** Two insertions into [x y z], one between [x] and [y] and one between
    [y] and [z], in either order. *)
Lemma insert_at_commute (x y z cA cB : string) :
  insert_at (String.length x + String.length cA + String.length y) cB
    (insert_at (String.length x) cA (x +:+ y +:+ z))
  = x +:+ cA +:+ y +:+ cB +:+ z
  ∧ insert_at (String.length x) cA
      (insert_at (String.length x + String.length y) cB (x +:+ y +:+ z))
    = x +:+ cA +:+ y +:+ cB +:+ z.
Proof.
  unfold insert_at. split.
  - rewrite take_append_exact, drop_append_exact.
    replace (x +:+ cA +:+ y +:+ z) with ((x +:+ cA +:+ y) +:+ z)
      by (by rewrite !append_assoc).
    replace (String.length x + String.length cA + String.length y)%nat
      with (String.length (x +:+ cA +:+ y)) by (rewrite !length_append; lia).
    rewrite take_append_exact, drop_append_exact.
    by rewrite !append_assoc.
  - replace (x +:+ y +:+ z) with ((x +:+ y) +:+ z) by (by rewrite !append_assoc).
    replace (String.length x + String.length y)%nat
      with (String.length (x +:+ y)) by (rewrite !length_append; lia).
    rewrite take_append_exact, drop_append_exact.
    rewrite !append_assoc.
    by rewrite take_append_exact, drop_append_exact.
Qed.

(** Inserts at two different offsets of the base commute through the
    transform: the one at the smaller offset is [a]. *)
Lemma ordered_inserts_commute (s : string) (a b : Operation) :
  Op.type a = "insert" → Op.type b = "insert" →
  0 ≤ Op.position a → Op.position a < Op.position b →
  Op.position b ≤ str_length s →
  apply_then_transformed s a b = apply_then_transformed s b a
  ∧ is_Some (apply_then_transformed s a b).
Proof.
  intros Ha Hb H0 Hlt Hlen. unfold str_length in Hlen.
  set (na := Z.to_nat (Op.position a)).
  set (nb := Z.to_nat (Op.position b)).
  set (x := take na s).
  set (y := take (nb - na) (drop na s)).
  set (z := drop (nb - na) (drop na s)).
  assert (Hs : s = x +:+ y +:+ z).
  { unfold x, y, z. by rewrite !take_drop. }
  assert (Hx : String.length x = na).
  { unfold x. rewrite length_take. lia. }
  assert (Hy : String.length y = (nb - na)%nat).
  { unfold y. rewrite length_take, length_drop. lia. }
  destruct (insert_at_commute x y z (Op.content a) (Op.content b)) as [E1 E2].
  unfold apply_then_transformed, transformOperation.
  rewrite Ha, Hb. simpl.
  destruct (Z.leb_spec (Op.position a) (Op.position b)) as [_|?]; [|lia].
  destruct (Z.leb_spec (Op.position b) (Op.position a)) as [?|_]; [lia|].
  rewrite (apply_insert s a), (apply_insert s b) by (done || lia).
  rewrite !apply_insert by (done || simpl; unfold str_length; lia).
  simpl. unfold str_length.
  replace (Z.to_nat (Op.position b + Z.of_nat (String.length (Op.content a))))
    with (String.length x + String.length (Op.content a) + String.length y)%nat
    by lia.
  fold na nb.
  assert (Hnb : nb = (String.length x + String.length y)%nat) by lia.
  rewrite Hs, Hnb, <- Hx, E1, E2. split; [done | by eexists].
Qed.

End transform_facts.

Section transform_claims.
Import JSString.

Lemma insert_same_position (s : string) (a b : Operation) :
  Op.type a = "insert" → Op.type b = "insert" →
  0 ≤ Op.position a → Op.position a ≤ str_length s →
  Op.position a = Op.position b →
  apply_then_transformed s a b
  = Some (insert_at (Z.to_nat (Op.position a)) (Op.content a +:+ Op.content b) s).
Proof.
  intros Ha Hb H0 Hlen Heq. unfold str_length in Hlen.
  unfold apply_then_transformed, transformOperation.
  rewrite Ha, Hb. simpl.
  destruct (Z.leb_spec (Op.position a) (Op.position b)) as [_|?]; [|lia].
  rewrite (apply_insert s a) by done.
  rewrite apply_insert by (done || simpl; unfold str_length; lia).
  simpl. f_equal. unfold insert_at, str_length. rewrite <- Heq.
  set (x := take (Z.to_nat (Op.position a)) s).
  set (r := drop (Z.to_nat (Op.position a)) s).
  assert (Hx : String.length x = Z.to_nat (Op.position a)).
  { unfold x. rewrite length_take. lia. }
  replace (x +:+ Op.content a +:+ r) with ((x +:+ Op.content a) +:+ r)
    by (by rewrite !append_assoc).
  replace (Z.to_nat (Op.position a + Z.of_nat (String.length (Op.content a))))
    with (String.length (x +:+ Op.content a))
    by (rewrite length_append; lia).
  rewrite take_append_exact, drop_append_exact. by rewrite !append_assoc.
Qed.

(** C1 (amended).  Two inserts authored against the same base, both at
    offsets inside it: when the offsets differ, applying either one first
    and then the transform of the other yields the same string; when the
    offsets are equal, the text of the operation applied first comes
    first, so the two orders differ by the order of the two texts. *)
Theorem insert_convergence (s : string) (a b : Operation) :
  Op.type a = "insert" → Op.type b = "insert" →
  0 ≤ Op.position a ≤ str_length s →
  0 ≤ Op.position b ≤ str_length s →
  (Op.position a ≠ Op.position b →
   apply_then_transformed s a b = apply_then_transformed s b a
   ∧ is_Some (apply_then_transformed s a b))
  ∧ (Op.position a = Op.position b →
     apply_then_transformed s a b
     = Some (insert_at (Z.to_nat (Op.position a))
               (Op.content a +:+ Op.content b) s)
     ∧ apply_then_transformed s b a
       = Some (insert_at (Z.to_nat (Op.position a))
                 (Op.content b +:+ Op.content a) s)).
Proof.
  intros Ha Hb [Ha0 Ha1] [Hb0 Hb1]. split.
  - intros Hne.
    destruct (Z.lt_total (Op.position a) (Op.position b)) as [Hlt|[?|Hgt]];
      [| done |].
    + by apply ordered_inserts_commute.
    + destruct (ordered_inserts_commute s b a) as [E [r Hr]]; try done.
      split; [done |]. exists r. by rewrite <- E.
  - intros Heq. split.
    + by apply insert_same_position.
    + rewrite Heq. apply insert_same_position; try done; lia.
Qed.

(** C1, as stated, fails: on base "ab" with both inserts at offset 0 the
    two orders end in "XYab" and in "YXab". *)
Lemma same_position_inserts_diverge :
  apply_then_transformed "ab" opA opB = Some "XYab"
  ∧ apply_then_transformed "ab" opB opA = Some "YXab"
  ∧ apply_then_transformed "ab" opA opB ≠ apply_then_transformed "ab" opB opA.
Proof. split; [reflexivity | split; [reflexivity | discriminate]]. Qed.

Lemma insert_convergence_witness :
  apply_then_transformed "ab" opA (insert_op "B" 1 "Y")
  = apply_then_transformed "ab" (insert_op "B" 1 "Y") opA
  ∧ apply_then_transformed "ab" opA (insert_op "B" 1 "Y") = Some "XaYb".
Proof.
  split; [| reflexivity].
  apply (insert_convergence "ab" opA (insert_op "B" 1 "Y")).
  - reflexivity.
  - reflexivity.
  - unfold str_length; simpl; lia.
  - unfold str_length; simpl; lia.
  - simpl; lia.
Defined.

(** C2 (amended).  [applyOperation] never rejects: a delete or replace at
    a non-negative position whose range runs past the end of the content
    removes everything from that position on, so the result is the prefix
    of the content before the position (followed by the new text for a
    replace). *)
Theorem apply_past_end_truncates (content : string) (op : Operation) :
  0 ≤ Op.position op →
  (Op.type op = "delete" →
   str_length content < Op.position op + Op.length op →
   applyOperation content op = take (Z.to_nat (Op.position op)) content)
  ∧ (Op.type op = "replace" →
     str_length content < Op.position op + Op.oldLength op →
     applyOperation content op
     = take (Z.to_nat (Op.position op)) content +:+ Op.content op).
Proof.
  intros Hp. unfold str_length. split; intros Ht Hlen;
    unfold applyOperation; rewrite Ht; simpl;
    rewrite slice_prefix, slice_suffix by lia;
    rewrite drop_ge by lia; by rewrite ?append_nil_r.
Qed.

(** C2, as stated, fails: deleting 5 characters at position 0 of "abc"
    is applied and empties the content. *)
Lemma delete_past_end_applied :
  str_length "abc" < Op.position (delete_op "u" 0 5) + Op.length (delete_op "u" 0 5)
  ∧ applyOperation "abc" (delete_op "u" 0 5) = ""
  ∧ applyOperation "abc" (delete_op "u" 0 5) ≠ "abc".
Proof. split; [reflexivity | split; [reflexivity | discriminate]]. Qed.

Lemma apply_past_end_truncates_witness :
  applyOperation "abc" (delete_op "u" 1 5) = "a"
  ∧ applyOperation "abc" (replace_op "u" 1 "Z" 5) = "aZ".
Proof.
  split.
  - destruct (apply_past_end_truncates "abc" (delete_op "u" 1 5)) as [H _].
    + simpl; lia.
    + apply H; [reflexivity | unfold str_length; simpl; lia].
  - destruct (apply_past_end_truncates "abc" (replace_op "u" 1 "Z" 5)) as [_ H].
    + simpl; lia.
    + apply H; [reflexivity | unfold str_length; simpl; lia].
Defined.

(** The delete/delete case in full: [transformOperation op1 op2] is
    [None] exactly when [op1] starts inside the range of [op2], that is
    when [op2.position <= op1.position < op2.position + op2.length]; when
    [op1] starts before [op2], overlapping or not, the result is [op2]
    moved to [max(op1.position, op2.position - op1.length)]. *)
Lemma delete_delete_cases (op1 op2 : Operation) :
  Op.type op1 = "delete" → Op.type op2 = "delete" →
  (transformOperation op1 op2 = None
   ↔ Op.position op2 ≤ Op.position op1 < Op.position op2 + Op.length op2)
  ∧ (Op.position op1 < Op.position op2 →
     transformOperation op1 op2
     = Some (with_position op2
               (Z.max (Op.position op1) (Op.position op2 - Op.length op1)))).
Proof.
  intros H1 H2. unfold transformOperation. rewrite H1, H2. simpl.
  destruct (Z.ltb_spec (Op.position op1) (Op.position op2)) as [Hlt|Hge].
  - split; [| done]. split; [done | lia].
  - split; [| lia].
    destruct (Z.geb_spec (Op.position op1) (Op.position op2 + Op.length op2))
      as [Hout|Hin]; split; try done; lia.
Qed.

(** The same overlap seen from the other side is reported. *)
Example overlapping_delete_dropped :
  transformOperation del_second del_first = None.
Proof. reflexivity. Qed.

(** C4 at the failing input: the deletes of [0,3) and [1,4) overlap with
    [op1.position < op2.position < op1.position + op1.length], yet
    [transformOperation] does not return [None]: it keeps the second
    delete, moved to position 0 with its length 3.  A pass over "abcdef"
    with this queue then removes "abc" and "def" and leaves nothing,
    although neither delete covered "ef". *)
Theorem overlapping_delete_kept :
  ranges_overlap del_first del_second
  ∧ Op.position del_first < Op.position del_second
    < Op.position del_first + Op.length del_first
  ∧ transformOperation del_first del_second = Some (delete_op "B" 0 3)
  ∧ transformOperation del_first del_second ≠ None
  ∧ process_loop [del_first; del_second] 0 "abcdef" []
    = ("", [del_first; delete_op "B" 0 3]).
Proof.
  unfold ranges_overlap. simpl.
  split; [lia |]. split; [lia |]. split; [reflexivity |].
  split; [discriminate | reflexivity].
Qed.

(** C9.  Whenever [transformOperation op1 op2] returns an operation, that
    operation has the type, content, length, oldLength, userId, timestamp
    and id of [op2]: only the position can differ. *)
Theorem transform_frame (op1 op2 r : Operation) :
  transformOperation op1 op2 = Some r →
  Op.type r = Op.type op2
  ∧ Op.content r = Op.content op2
  ∧ Op.length r = Op.length op2
  ∧ Op.oldLength r = Op.oldLength op2
  ∧ Op.userId r = Op.userId op2
  ∧ Op.timestamp r = Op.timestamp op2
  ∧ Op.id r = Op.id op2.
Proof.
  intros H. apply transform_shape in H. rewrite H. simpl. tauto.
Qed.

Lemma transform_frame_witness :
  Op.type (insert_op "B" 1 "Y") = Op.type opB
  ∧ Op.content (insert_op "B" 1 "Y") = Op.content opB
  ∧ Op.length (insert_op "B" 1 "Y") = Op.length opB
  ∧ Op.oldLength (insert_op "B" 1 "Y") = Op.oldLength opB
  ∧ Op.userId (insert_op "B" 1 "Y") = Op.userId opB
  ∧ Op.timestamp (insert_op "B" 1 "Y") = Op.timestamp opB
  ∧ Op.id (insert_op "B" 1 "Y") = Op.id opB.
Proof. apply (transform_frame opA opB (insert_op "B" 1 "Y")). reflexivity. Defined.

End transform_claims.

(** ** Reconciliation *)

Example scenario_pass :
  process_loop [scenario_A; scenario_B] 0 "hello" []
  = (">> hello world", [scenario_A; scenario_B]).
Proof. reflexivity. Qed.

Example scenario_end_to_end :
  document_updates (snd (run scenario_trace (sample_world "hello" (Some (Num 1)))))
  = [(ToRoomExcept "doc1" 1%nat, DocumentUpdated ">> hello world" (Num 2));
     (ToSocket 1%nat, DocumentUpdated ">> hello world" (Num 2))].
Proof. vm_compute. reflexivity. Qed.

Section reconciliation_claims.

(** C8.  With base content "hello" and the queue [A; B], where A inserts
    " world" at 5 and B inserts ">> " at 0, the transform of B against A
    leaves B as it is (5 <= 0 is false), and one pass applies A then B,
    stores ">> hello world" and returns it. *)
Theorem concrete_scenario (now : Z) :
  transformOperation scenario_A scenario_B = Some scenario_B
  ∧ (Op.position scenario_A <=? Op.position scenario_B) = false
  ∧ process_loop [scenario_A; scenario_B] 0 "hello" []
    = (">> hello world", [scenario_A; scenario_B])
  ∧ snd (processPendingOperations now None "doc1" scenario_world)
    = Some (PassSuccess ">> hello world" (Num 2))
  ∧ Doc.content <$>
      documents (fst (processPendingOperations now None "doc1" scenario_world))
        !! "doc1"
    = Some ">> hello world".
Proof. repeat split. Qed.

(** C10.  When the pending queue of a document is absent or empty,
    [processPendingOperations] returns no result and leaves the whole
    state, content and version included, as it was. *)
Theorem empty_pass_noop (now : Z) (saveError : option string)
    (documentId : string) (w : World) :
  pendingOperations w !! documentId = None
  ∨ pendingOperations w !! documentId = Some [] →
  processPendingOperations now saveError documentId w = (w, None).
Proof.
  intros [H|H]; unfold processPendingOperations; by rewrite H.
Qed.

Lemma empty_pass_noop_witness :
  processPendingOperations 500 None "doc1" (sample_world "hello" (Some (Num 1)))
  = (sample_world "hello" (Some (Num 1)), None).
Proof.
  apply (empty_pass_noop 500 None "doc1" (sample_world "hello" (Some (Num 1)))).
  left. reflexivity.
Defined.

(** A timer that finds the queue empty broadcasts nothing. *)
Lemma timer_on_empty_queue (now : Z) (saveError : option string) (s : nat)
    (documentId : string) (rest : list (nat * string)) (w : World) :
  timers w = (s, documentId) :: rest →
  pendingOperations w !! documentId = None →
  timer_fired now saveError w = (set_timers w rest, []).
Proof.
  intros Ht Hq. unfold timer_fired, processPendingOperations.
  rewrite Ht. simpl. by rewrite Hq.
Qed.




(** A document whose [version] is [undefined] comes out of a pass with
    the version [NaN]. *)
Example undefined_version_pass :
  snd (processPendingOperations 500 None "doc1"
         (set_pendingOperations (sample_world "hello" None)
            (<["doc1" := [scenario_A]]> ∅)))
  = Some (PassSuccess "hello world" NaN).
Proof. reflexivity. Qed.

End reconciliation_claims.

(** ** Sessions and presence *)

Section session_claims.

(** The only guard of the [cursor-position] handler is that the document
    has a cursor map: neither the sender's [currentDocument] nor
    [checkDocumentAccess] is consulted. *)
Lemma cursor_position_guard (s : nat) (documentId : string) (position : Z)
    (w : World) (socket : Socket.t) (current : gmap string Z) :
  sockets w !! s = Some socket →
  documentId ≠ "" →
  userCursors w !! documentId = Some current →
  cursor_position s (Some documentId) (Some position) w
  = (set_userCursors w
       (<[documentId := <[Socket.userId socket := position]> current]>
          (userCursors w)),
     [(ToRoomExcept documentId s,
       CursorUpdate (Socket.userId socket) (User.name (Socket.user socket))
         position)]).
Proof.
  intros Hs Hd Hc. unfold cursor_position, truthy. rewrite Hs.
  destruct (String.eqb_spec documentId "") as [?|_]; [done |].
  by rewrite Hc.
Qed.

(** C5 at the failing input: bob is connected but joined nothing; after
    his [cursor-position] for "doc1" the cursor map of "doc1" holds an
    entry for bob although the session lists alice only. *)
Theorem stray_cursor_breaks_presence :
  let w := fst (run (session_with_stranger "bob" bob "org1" ++ [stray_cursor])
                  (sample_world "" (Some (Num 1)))) in
  members w "doc1" = ["alice"]
  ∧ cursors w "doc1" !! "bob" = Some 7
  ∧ ¬ presence_invariant w.
Proof.
  set (w := fst _).
  assert (Hm : members w "doc1" = ["alice"]) by (vm_compute; reflexivity).
  assert (Hc : cursors w "doc1" !! "bob" = Some 7) by (vm_compute; reflexivity).
  split; [done |]. split; [done |].
  intros Hinv. specialize (Hinv "doc1" "bob").
  rewrite Hc, Hm in Hinv.
  apply list_elem_of_singleton in Hinv; [discriminate | by eexists].
Qed.

(** C7 at the failing input: mallory belongs to another organization, is
    denied view access to "doc1" and has no current document; her
    [cursor-position] for "doc1" still writes her cursor and is
    broadcast to the room. *)
Theorem stray_cursor_unchecked :
  let w := fst (run (session_with_stranger "mallory" mallory "org2")
                  (sample_world "" (Some (Num 1)))) in
  Socket.currentDocument <$> sockets w !! 2%nat = Some None
  ∧ checkDocumentAccess w 11 "mallory" "doc1" "org2" "view"
    = Denied "Document not found"
  ∧ cursors w "doc1" !! "mallory" = None
  ∧ cursors (fst (step stray_cursor w)) "doc1" !! "mallory" = Some 7
  ∧ snd (step stray_cursor w)
    = [(ToRoomExcept "doc1" 2%nat, CursorUpdate "mallory" "Mallory" 7)].
Proof.
  set (w := fst _).
  split; [vm_compute; reflexivity |].
  split; [vm_compute; reflexivity |].
  split; [vm_compute; reflexivity |].
  split; vm_compute; reflexivity.
Qed.

(** The join handler never looks at the document the socket is in: when
    a connection whose current document is D1 joins a different document
    D2, access granted, it becomes a member of D2 and D2 becomes its
    current document, while the session and the cursors of D1 are left as
    they were, the socket stays in the room of D1, and no [user-left] is
    emitted. *)
Theorem join_keeps_previous_session (now : Z) (s : nat) (d1 d2 : string)
    (w : World) (socket : Socket.t) (document : Doc.t) (role : string)
    (permission : option string) :
  sockets w !! s = Some socket →
  Socket.currentDocument socket = Some d1 →
  d2 ≠ "" → d1 ≠ d2 →
  checkDocumentAccess w now (Socket.userId socket) d2
    (Socket.organizationId socket) "view"
  = Granted document role permission →
  let w' := fst (join_document now s (Some d2) w) in
  members w' d1 = members w d1
  ∧ cursors w' d1 = cursors w d1
  ∧ Socket.userId socket ∈ members w' d2
  ∧ Socket.currentDocument <$> sockets w' !! s = Some (Some d2)
  ∧ Socket.rooms <$> sockets w' !! s = Some (set_add d2 (Socket.rooms socket))
  ∧ filter (λ e, is_user_left e = true) (snd (join_document now s (Some d2) w))
    = [].
Proof.
  intros Hs Hcur Hd2 Hne Hacc. unfold join_document, truthy.
  rewrite Hs. destruct (String.eqb_spec d2 "") as [?|_]; [done |].
  rewrite Hacc. unfold members, cursors. simpl.
  assert (Hin : Socket.userId socket
                ∈ set_add (Socket.userId socket)
                    (default [] (documentSessions w !! d2))).
  { unfold set_add. case_decide; set_solver. }
  destruct (userCursors w !! d2) eqn:E; simpl;
    rewrite lookup_insert_eq, ?lookup_insert_eq, ?lookup_insert_ne by done;
    simpl; done.
Qed.

(** C6 at the failing input: after alice, joined to "doc1" with a cursor
    there, joins "doc2" over the same socket, she is still listed in the
    session of "doc1", her cursor entry is still there, and the join
    emitted no [user-left]. *)
Lemma second_join_leaves_nothing :
  let w := fst (run first_join_trace (sample_world "" (Some (Num 1)))) in
  Socket.currentDocument <$> sockets w !! 1%nat = Some (Some "doc1")
  ∧ members (fst (step second_join w)) "doc1" = ["alice"]
  ∧ members (fst (step second_join w)) "doc2" = ["alice"]
  ∧ cursors (fst (step second_join w)) "doc1" !! "alice" = Some 3
  ∧ filter (λ e, is_user_left e = true) (snd (step second_join w)) = [].
Proof.
  set (w := fst _).
  split; [vm_compute; reflexivity |].
  split; [vm_compute; reflexivity |].
  split; [vm_compute; reflexivity |].
  split; vm_compute; reflexivity.
Qed.

(** Nothing removes what the second join left behind: [leave-document]
    for "doc1" is ignored because the current document is "doc2" by then,
    and the disconnect cleans "doc2" only, so the membership and the
    cursor of alice in "doc1" outlive her socket. *)
Example stranded_membership :
  let w := fst (run (first_join_trace
                       ++ [second_join; LeaveDocument 1 (Some "doc1"); Disconnect 1])
                  (sample_world "" (Some (Num 1)))) in
  sockets w !! 1%nat = None
  ∧ members w "doc1" = ["alice"]
  ∧ cursors w "doc1" !! "alice" = Some 3
  ∧ members w "doc2" = [].
Proof.
  set (w := fst _).
  split; [vm_compute; reflexivity |].
  split; [vm_compute; reflexivity |].
  split; vm_compute; reflexivity.
Qed.

Lemma join_keeps_previous_session_witness :
  let w := fst (run first_join_trace (sample_world "" (Some (Num 1)))) in
  members (fst (join_document 12 1 (Some "doc2") w)) "doc1" = members w "doc1"
  ∧ cursors (fst (join_document 12 1 (Some "doc2") w)) "doc1" = cursors w "doc1".
Proof.
  set (w := fst _).
  destruct (join_keeps_previous_session 12 1 "doc1" "doc2" w
              (Socket.make "alice" alice "org1" (Some "doc1") None ["doc1"])
              (sample_doc "Plan" "" (Some (Num 1))) "owner" None)
    as (Hm & Hc & _).
  - vm_compute; reflexivity.
  - reflexivity.
  - discriminate.
  - discriminate.
  - vm_compute; reflexivity.
  - split; [exact Hm | exact Hc].
Defined.

End session_claims.

(** ** The presence invariant away from stray cursors

    The [cursor-position] handler is the only place where the invariant can
    break: every other event preserves it, and so does a [cursor-position]
    sent by a member of the document. *)

Section presence.

Ltac world_simpl :=
  unfold set_documents, set_sockets, set_activeConnections,
    set_documentSessions, set_documentLocks, set_userCursors,
    set_pendingOperations, set_timers, set_activities, update_socket in *;
  simpl in *.

Lemma presence_same (w w' : World) :
  documentSessions w' = documentSessions w →
  userCursors w' = userCursors w →
  presence_invariant w → presence_invariant w'.
Proof. unfold presence_invariant, members, cursors. by intros -> ->. Qed.

Lemma presence_empty (docs : gmap string Doc.t) (us : gmap string User.t) :
  presence_invariant (empty_world docs us).
Proof.
  intros d u. unfold cursors. simpl. rewrite lookup_empty. simpl.
  rewrite lookup_empty. by intros [? ?].
Qed.

Lemma set_add_mono (x y : string) (l : list string) : x ∈ l → x ∈ set_add y l.
Proof. unfold set_add. case_decide; set_solver. Qed.

Lemma set_delete_in (x y : string) (l : list string) :
  x ∈ set_delete y l ↔ x ≠ y ∧ x ∈ l.
Proof. unfold set_delete. by rewrite list_elem_of_filter. Qed.

Lemma remove_from_session_presence (u d : string) (w : World) :
  presence_invariant w → presence_invariant (remove_from_session u d w).
Proof.
  intros Hinv d' u'. specialize (Hinv d' u'). revert Hinv.
  unfold remove_from_session, members, cursors.
  destruct (documentSessions w !! d) as [ms|] eqn:Hms.
  - destruct (decide (List.length (set_delete u ms) = 0%nat)) as [Hempty|Hnonempty];
      world_simpl.
    + rewrite lookup_delete_eq. simpl.
      destruct (decide (d' = d)) as [->|Hne].
      * rewrite lookup_delete_eq. simpl. rewrite lookup_empty.
        by intros _ [? ?].
      * by rewrite !lookup_delete_ne.
    + destruct (userCursors w !! d) as [cs|] eqn:Hcs; world_simpl.
      * destruct (decide (d' = d)) as [->|Hne].
        -- rewrite !lookup_insert_eq, Hms, Hcs. simpl.
           destruct (decide (u' = u)) as [->|Hu].
           ++ rewrite lookup_delete_eq. by intros _ [? ?].
           ++ rewrite lookup_delete_ne by done. intros H Hc.
              apply set_delete_in. split; [done | by apply H].
        -- by rewrite !lookup_insert_ne.
      * destruct (decide (d' = d)) as [->|Hne].
        -- rewrite Hcs. simpl. rewrite lookup_empty. by intros _ [? ?].
        -- by rewrite lookup_insert_ne.
  - destruct (userCursors w !! d) as [cs|] eqn:Hcs; world_simpl; [| done].
    destruct (decide (d' = d)) as [->|Hne].
    + rewrite lookup_insert_eq, Hms, Hcs. simpl. intros H Hc.
      destruct (decide (u' = u)) as [->|Hu].
      * rewrite lookup_delete_eq in Hc. by destruct Hc.
      * rewrite lookup_delete_ne in Hc by done. by apply H.
    + by rewrite lookup_insert_ne.
Qed.

Lemma join_document_presence (now : Z) (s : nat) (documentId : option string)
    (w : World) :
  presence_invariant w → presence_invariant (fst (join_document now s documentId w)).
Proof.
  intros Hinv. unfold join_document.
  destruct (sockets w !! s) as [socket|]; [| done].
  destruct (truthy documentId) as [d|]; [| done].
  destruct (checkDocumentAccess _ _ _ _ _ _) as [document role permission|];
    [| done].
  intros d' u'. specialize (Hinv d' u'). revert Hinv.
  unfold members, cursors. simpl.
  destruct (decide (d' = d)) as [->|Hne].
  - destruct (userCursors w !! d) as [cs|] eqn:Hcs; simpl;
      rewrite ?lookup_insert_eq, ?Hcs; simpl.
    + intros H Hc. by apply set_add_mono, H.
    + rewrite lookup_empty. by intros _ [? ?].
  - destruct (userCursors w !! d) as [cs|] eqn:Hcs; simpl;
      by rewrite ?lookup_insert_ne.
Qed.

Lemma cursor_position_presence (s : nat) (documentId : option string)
    (position : option Z) (w : World) :
  presence_invariant w →
  cursor_from_member (CursorPosition s documentId position) w →
  presence_invariant (fst (cursor_position s documentId position w)).
Proof.
  intros Hinv Hmem. unfold cursor_position.
  destruct (sockets w !! s) as [socket|] eqn:Hs; [| done].
  destruct documentId as [d0|]; [| done]. simpl.
  destruct (d0 =? "")%string; [done |].
  destruct position as [p|]; [| done].
  destruct (userCursors w !! d0) as [cs|] eqn:Hcs; [| done].
  specialize (Hmem socket Hs).
  intros d' u'. specialize (Hinv d' u'). revert Hinv.
  unfold members, cursors in *. simpl.
  destruct (decide (d' = d0)) as [->|Hne].
  - rewrite lookup_insert_eq, Hcs. simpl.
    destruct (decide (u' = Socket.userId socket)) as [->|Hu]; [done |].
    by rewrite lookup_insert_ne.
  - by rewrite lookup_insert_ne.
Qed.

Lemma leave_document_presence (s : nat) (documentId : option string) (w : World) :
  presence_invariant w → presence_invariant (fst (leave_document s documentId w)).
Proof.
  intros Hinv. unfold leave_document.
  destruct (sockets w !! s) as [socket|]; [| done].
  destruct (truthy documentId) as [d|]; [| done].
  case_decide; [| done]. simpl.
  by eapply presence_same;
    [| | apply (remove_from_session_presence (Socket.userId socket) d), Hinv].
Qed.

Lemma disconnect_presence (s : nat) (w : World) :
  presence_invariant w → presence_invariant (fst (disconnect s w)).
Proof.
  intros Hinv. unfold disconnect.
  destruct (sockets w !! s) as [socket|]; [| done].
  destruct (truthy (Socket.currentDocument socket)) as [d|]; simpl.
  - eapply presence_same;
      [| | apply (remove_from_session_presence (Socket.userId socket) d);
           eapply presence_same; [| | exact Hinv]]; done.
  - by eapply presence_same; [| | exact Hinv].
Qed.

Lemma pass_keeps_sessions (now : Z) (saveError : option string)
    (documentId : string) (w : World) :
  documentSessions (fst (processPendingOperations now saveError documentId w))
  = documentSessions w
  ∧ userCursors (fst (processPendingOperations now saveError documentId w))
    = userCursors w.
Proof.
  unfold processPendingOperations. repeat case_match; by simpl.
Qed.

(** One event keeps the invariant, unless it is a stray cursor. *)
Lemma step_presence (e : Event) (w : World) :
  presence_invariant w → cursor_from_member e w →
  presence_invariant (fst (step e w)).
Proof.
  intros Hinv Hmem. destruct e; simpl.
  - unfold connection. destruct (sockets w !! s); [done |].
    by eapply presence_same; [| | exact Hinv].
  - by apply join_document_presence.
  - unfold document_operation.
    repeat case_match; try done; by eapply presence_same; [| | exact Hinv].
  - by apply cursor_position_presence.
  - by apply leave_document_presence.
  - by apply disconnect_presence.
  - unfold timer_fired. destruct (timers w) as [|[s d] rest]; [done |].
    destruct (pass_keeps_sessions now saveError d (set_timers w rest)) as [E1 E2].
    destruct (processPendingOperations _ _ _ _) as [w1 result].
    simpl in E1, E2.
    assert (presence_invariant w1) by (by eapply presence_same; [| | exact Hinv]).
    by repeat case_match.
Qed.

Lemma run_cons (e : Event) (rest : list Event) (w : World) :
  fst (run (e :: rest) w) = fst (run rest (fst (step e w))).
Proof.
  simpl. destruct (step e w) as [w1 out1]. simpl.
  by destruct (run rest w1).
Qed.

(** Starting from a state that satisfies it, the invariant holds after
    every trace whose cursor positions all come from members. *)
Lemma run_presence (es : list Event) (w : World) :
  presence_invariant w → cursors_from_members es w →
  presence_invariant (fst (run es w)).
Proof.
  revert w. induction es as [|e rest IH]; intros w Hinv Hes; [done |].
  destruct Hes as [He Hrest]. rewrite run_cons.
  apply IH; [by apply step_presence | done].
Qed.

End presence.


(** * Further properties of the code *)

(** ** Splices *)

Section splice_facts.
Import JSString.

Lemma relative_index_range (len k : Z) :
  0 ≤ len → 0 ≤ relative_index len k ≤ len.
Proof. unfold relative_index. destruct (Z.ltb_spec k 0); lia. Qed.

Lemma slice_to (s : string) (p : Z) :
  slice s 0 p = take (Z.to_nat (relative_index (str_length s) p)) s.
Proof.
  unfold slice, str_length.
  pose proof (relative_index_range (Z.of_nat (String.length s)) p).
  replace (relative_index (Z.of_nat (String.length s)) 0) with 0
    by (unfold relative_index; simpl; lia).
  simpl drop. f_equal. lia.
Qed.

Lemma slice_from_to (s : string) (p : Z) :
  slice_from s p = drop (Z.to_nat (relative_index (str_length s) p)) s.
Proof.
  unfold slice_from, slice, str_length.
  pose proof (relative_index_range (Z.of_nat (String.length s)) p).
  replace (relative_index (Z.of_nat (String.length s)) (Z.of_nat (String.length s)))
    with (Z.of_nat (String.length s))
    by (unfold relative_index; destruct (Z.ltb_spec (Z.of_nat (String.length s)) 0); lia).
  apply take_ge. rewrite length_drop. lia.
Qed.

(** The two slices an insert is built from always make up the content. *)
Lemma slice_split (s : string) (p : Z) : slice s 0 p +:+ slice_from s p = s.
Proof. rewrite slice_to, slice_from_to. apply take_drop. Qed.

(** X1.  An insert keeps every character of the content, at any position,
    negative or past the end included: the result is the content cut in
    two with the inserted text in between, and it is longer than the
    content by the length of that text. *)
Theorem insert_keeps_content (s : string) (op : Operation) :
  Op.type op = "insert" →
  (∃ before after : string,
      applyOperation s op = before +:+ Op.content op +:+ after
      ∧ before +:+ after = s)
  ∧ str_length (applyOperation s op) = str_length s + str_length (Op.content op).
Proof.
  intros Ht. unfold applyOperation. rewrite Ht. simpl. split.
  - eexists _, _. split; [done | apply slice_split].
  - unfold str_length. rewrite !length_append.
    rewrite <- (slice_split s (Op.position op)) at 3.
    rewrite length_append. lia.
Qed.

Lemma insert_keeps_content_witness :
  str_length (applyOperation "hello" (insert_op "u" (-2) "XY"))
  = str_length "hello" + str_length "XY".
Proof. apply (insert_keeps_content "hello" (insert_op "u" (-2) "XY")). reflexivity. Defined.

Lemma apply_delete (s : string) (op : Operation) :
  Op.type op = "delete" → 0 ≤ Op.position op →
  0 ≤ Op.position op + Op.length op →
  applyOperation s op
  = take (Z.to_nat (Op.position op)) s
    +:+ drop (Z.to_nat (Op.position op + Op.length op)) s.
Proof.
  intros Ht Hp Hl. unfold applyOperation. rewrite Ht. simpl.
  by rewrite slice_prefix, slice_suffix.
Qed.

(** X2.  A delete whose range lies inside the content removes exactly that
    range: the result is the content before the position followed by the
    content from [position + length] on, and it is shorter by [length].
    The code never tests the sign of [length]: with a negative length the
    same formula holds and the result is longer than the content. *)
Theorem delete_in_range (s : string) (op : Operation) :
  Op.type op = "delete" →
  0 ≤ Op.position op ≤ str_length s →
  0 ≤ Op.position op + Op.length op ≤ str_length s →
  applyOperation s op
  = take (Z.to_nat (Op.position op)) s
    +:+ drop (Z.to_nat (Op.position op + Op.length op)) s
  ∧ str_length (applyOperation s op) = str_length s - Op.length op.
Proof.
  intros Ht [Hp0 Hp1] [Hl0 Hl1]. unfold str_length in *.
  rewrite apply_delete by done. split; [done |].
  rewrite length_append, length_take, length_drop. lia.
Qed.

Lemma delete_in_range_witness :
  applyOperation "abc" (delete_op "u" 2 (-1)) = "abbc"
  ∧ str_length (applyOperation "abc" (delete_op "u" 2 (-1))) = str_length "abc" - -1.
Proof.
  apply (delete_in_range "abc" (delete_op "u" 2 (-1))).
  - reflexivity.
  - unfold str_length; simpl; lia.
  - unfold str_length; simpl; lia.
Defined.

(** X3.  Deleting, at the same position, as many characters as an insert
    added restores the content the insert was applied to. *)
Theorem insert_then_delete (s : string) (ins del : Operation) :
  Op.type ins = "insert" → Op.type del = "delete" →
  0 ≤ Op.position ins ≤ str_length s →
  Op.position del = Op.position ins →
  Op.length del = str_length (Op.content ins) →
  applyOperation (applyOperation s ins) del = s.
Proof.
  intros Hi Hd [Hp0 Hp1] Hpos Hlen. unfold str_length in *.
  rewrite (apply_insert s ins) by done.
  rewrite apply_delete by (done || lia).
  rewrite Hpos, Hlen. unfold insert_at.
  set (x := take (Z.to_nat (Op.position ins)) s).
  set (r := drop (Z.to_nat (Op.position ins)) s).
  assert (Hx : String.length x = Z.to_nat (Op.position ins)).
  { unfold x. rewrite length_take. lia. }
  rewrite <- Hx at 1. rewrite take_append_exact.
  replace (x +:+ Op.content ins +:+ r) with ((x +:+ Op.content ins) +:+ r)
    by (by rewrite append_assoc).
  replace (Z.to_nat (Op.position ins + Z.of_nat (String.length (Op.content ins))))
    with (String.length (x +:+ Op.content ins)) by (rewrite length_append; lia).
  rewrite drop_append_exact. apply take_drop.
Qed.

Lemma insert_then_delete_witness :
  applyOperation (applyOperation "hello" (insert_op "u" 2 "XY")) (delete_op "v" 2 2)
  = "hello".
Proof.
  apply (insert_then_delete "hello" (insert_op "u" 2 "XY") (delete_op "v" 2 2)).
  - reflexivity.
  - reflexivity.
  - unfold str_length; simpl; lia.
  - reflexivity.
  - reflexivity.
Defined.

End splice_facts.

(** ** Transforms *)

Section transform_extras.
Import JSString.

(** X4.  [transformOperation] reports a conflict in one situation only:
    both operations are deletes and the committed one starts inside the
    range of the other.  Every other pair, whatever the types, yields an
    operation. *)
Theorem transform_conflict_iff (op1 op2 : Operation) :
  transformOperation op1 op2 = None
  ↔ Op.type op1 = "delete" ∧ Op.type op2 = "delete"
    ∧ Op.position op2 ≤ Op.position op1 < Op.position op2 + Op.length op2.
Proof.
  unfold transformOperation. split.
  - intros H. repeat case_match; try discriminate.
    match goal with
    | Hb : (_ =? "delete")%string && (_ =? "delete")%string = true |- _ =>
      apply andb_prop in Hb; destruct Hb as [E1 E2]
    end.
    apply String.eqb_eq in E1, E2. repeat split; try done; lia.
  - intros (H1 & H2 & Hlo & Hhi). rewrite H1, H2. simpl.
    destruct (Z.ltb_spec (Op.position op1) (Op.position op2)); [lia |].
    destruct (Z.geb_spec (Op.position op1) (Op.position op2 + Op.length op2));
      [lia | done].
Qed.

(** X5.  Only inserts and deletes take part in the transform: when either
    operation has another type, a replace included, the second operation
    comes back as it is, however the two ranges lie. *)
Theorem transform_ignores_other_types (op1 op2 : Operation) :
  (Op.type op1 ≠ "insert" ∧ Op.type op1 ≠ "delete")
  ∨ (Op.type op2 ≠ "insert" ∧ Op.type op2 ≠ "delete") →
  transformOperation op1 op2 = Some op2.
Proof.
  intros H. unfold transformOperation.
  destruct (String.eqb_spec (Op.type op1) "insert");
    destruct (String.eqb_spec (Op.type op1) "delete");
    destruct (String.eqb_spec (Op.type op2) "insert");
    destruct (String.eqb_spec (Op.type op2) "delete"); simpl; try done;
    exfalso; destruct H as [[? ?]|[? ?]]; congruence.
Qed.

Lemma transform_ignores_other_types_witness :
  transformOperation (insert_op "A" 0 "XYZ") (replace_op "B" 5 "q" 1)
  = Some (replace_op "B" 5 "q" 1).
Proof.
  apply (transform_ignores_other_types (insert_op "A" 0 "XYZ") (replace_op "B" 5 "q" 1)).
  right. split; discriminate.
Defined.

(** X6.  The transform never produces a negative position out of
    non-negative ones. *)
Theorem transform_position_nonneg (op1 op2 r : Operation) :
  0 ≤ Op.position op1 → 0 ≤ Op.position op2 →
  transformOperation op1 op2 = Some r →
  0 ≤ Op.position r.
Proof.
  intros H1 H2. unfold transformOperation, str_length.
  repeat case_match; intros; simplify_eq; simpl; lia.
Qed.

Lemma transform_position_nonneg_witness :
  0 ≤ Op.position (insert_op "B" 2 "Y").
Proof.
  apply (transform_position_nonneg (delete_op "A" 2 10) (insert_op "B" 5 "Y")
           (insert_op "B" 2 "Y")).
  - simpl; lia.
  - simpl; lia.
  - reflexivity.
Defined.

Lemma insert_at_middle (x z c : string) :
  insert_at (String.length x) c (x +:+ z) = x +:+ c +:+ z.
Proof. unfold insert_at. by rewrite take_append_exact, drop_append_exact. Qed.

Lemma delete_at_middle (x d z : string) :
  delete_at (String.length x) (String.length d) (x +:+ d +:+ z) = x +:+ z.
Proof.
  unfold delete_at. rewrite take_append_exact.
  replace (x +:+ d +:+ z) with ((x +:+ d) +:+ z) by (by rewrite append_assoc).
  rewrite <- length_append. by rewrite drop_append_exact.
Qed.

Lemma apply_insert_at (s : string) (op : Operation) (n : nat) :
  Op.type op = "insert" → Op.position op = Z.of_nat n →
  applyOperation s op = insert_at n (Op.content op) s.
Proof.
  intros Ht Hp. rewrite apply_insert by (done || lia).
  by rewrite Hp, Nat2Z.id.
Qed.

Lemma apply_delete_at (s : string) (op : Operation) (n len : nat) :
  Op.type op = "delete" → Op.position op = Z.of_nat n →
  Op.length op = Z.of_nat len →
  applyOperation s op = delete_at n len s.
Proof.
  intros Ht Hp Hl. rewrite apply_delete by (done || lia).
  rewrite Hp, Hl, <- Nat2Z.inj_add, !Nat2Z.id. done.
Qed.

(** A string cut at two offsets. *)
Lemma split_three (s : string) (a b : nat) :
  (a ≤ b)%nat → (b ≤ String.length s)%nat →
  ∃ x y z, s = x +:+ y +:+ z
           ∧ String.length x = a ∧ String.length y = (b - a)%nat.
Proof.
  intros Hab Hb.
  exists (take a s), (take (b - a) (drop a s)), (drop (b - a) (drop a s)).
  rewrite !take_drop, !length_take, length_drop. repeat split; lia.
Qed.

(** X7.  An insert and a delete authored against the same base commute
    through the transform whenever the insert position is not strictly
    inside the deleted range: applying either one first and then the
    transform of the other gives the same content. *)
Theorem insert_delete_convergence (s : string) (ins del : Operation) :
  Op.type ins = "insert" → Op.type del = "delete" →
  0 ≤ Op.position ins ≤ str_length s →
  0 ≤ Op.position del → 0 ≤ Op.length del →
  Op.position del + Op.length del ≤ str_length s →
  Op.position ins ≤ Op.position del
  ∨ Op.position del + Op.length del ≤ Op.position ins →
  apply_then_transformed s ins del = apply_then_transformed s del ins
  ∧ is_Some (apply_then_transformed s ins del).
Proof.
  intros Hi Hd [Hi0 Hi1] Hd0 Hl0 Hd1 Hout. unfold str_length in *.
  set (c := Op.content ins).
  destruct (decide (Op.position ins ≤ Op.position del)) as [Hle|Hgt].
  - (* the insert lies before the deleted range *)
    destruct (split_three s (Z.to_nat (Op.position ins))
                (Z.to_nat (Op.position del))) as (x & yr & zr & Hs & Hx & Hy);
      [lia | lia |].
    destruct (split_three zr 0 (Z.to_nat (Op.length del)))
      as (e & d & z & Hzr & He & Hdl); [lia | |].
    { assert (String.length s = (String.length x + String.length yr
                                 + String.length zr)%nat)
        by (rewrite Hs, !length_append; lia). lia. }
    destruct e; [| done]. rewrite append_nil_l in Hzr. subst zr s.
    unfold apply_then_transformed, transformOperation.
    rewrite Hi, Hd. simpl.
    destruct (Z.leb_spec (Op.position ins) (Op.position del)); [| lia].
    destruct (Z.ltb_spec (Op.position del) (Op.position ins)); [lia |].
    rewrite (apply_insert_at _ ins (String.length x)) by (done || lia).
    rewrite (apply_delete_at _ del (String.length (x +:+ yr)) (String.length d))
      by (done || rewrite ?length_append; lia).
    rewrite (apply_insert_at _ ins (String.length x)) by (done || lia).
    rewrite (apply_delete_at _ _ (String.length (x +:+ c +:+ yr)) (String.length d))
      by (done || simpl; unfold str_length, c; rewrite ?length_append; lia).
    fold c. rewrite insert_at_middle.
    replace (x +:+ c +:+ yr +:+ d +:+ z) with ((x +:+ c +:+ yr) +:+ d +:+ z)
      by (by rewrite !append_assoc).
    rewrite delete_at_middle.
    replace (x +:+ yr +:+ d +:+ z) with ((x +:+ yr) +:+ d +:+ z)
      by (by rewrite !append_assoc).
    rewrite delete_at_middle.
    replace ((x +:+ yr) +:+ z) with (x +:+ yr +:+ z) by (by rewrite !append_assoc).
    rewrite insert_at_middle. rewrite !append_assoc. split; [done | by eexists].
  - (* the insert lies at or after the end of the deleted range *)
    assert (Hafter : Op.position del + Op.length del ≤ Op.position ins) by lia.
    destruct (split_three s (Z.to_nat (Op.position del))
                (Z.to_nat (Op.position del + Op.length del)))
      as (x & d & r & Hs & Hx & Hdl); [lia | lia |].
    destruct (split_three r 0 (Z.to_nat (Op.position ins)
                               - Z.to_nat (Op.position del + Op.length del)))
      as (e & y & z & Hr & He & Hy); [lia | |].
    { assert (String.length s = (String.length x + String.length d
                                 + String.length r)%nat)
        by (rewrite Hs, !length_append; lia). lia. }
    destruct e; [| done]. rewrite append_nil_l in Hr. subst r s.
    unfold apply_then_transformed, transformOperation.
    rewrite Hi, Hd. simpl.
    destruct (Z.leb_spec (Op.position ins) (Op.position del)); [lia |].
    destruct (Z.ltb_spec (Op.position del) (Op.position ins)); [| lia].
    rewrite (apply_insert_at _ ins (String.length (x +:+ d +:+ y)))
      by (done || rewrite ?length_append; lia).
    rewrite (apply_delete_at _ del (String.length x) (String.length d))
      by (done || lia).
    rewrite (apply_delete_at _ del (String.length x) (String.length d))
      by (done || lia).
    rewrite (apply_insert_at _ _ (String.length (x +:+ y)))
      by (done || simpl; rewrite ?length_append; lia).
    simpl. fold c. rewrite delete_at_middle.
    replace (x +:+ d +:+ y +:+ z) with ((x +:+ d +:+ y) +:+ z)
      by (by rewrite !append_assoc).
    rewrite insert_at_middle.
    replace (x +:+ y +:+ z) with ((x +:+ y) +:+ z) by (by rewrite !append_assoc).
    rewrite insert_at_middle.
    replace ((x +:+ d +:+ y) +:+ c +:+ z) with (x +:+ d +:+ y +:+ c +:+ z)
      by (by rewrite !append_assoc).
    rewrite delete_at_middle. rewrite !append_assoc. split; [done | by eexists].
Qed.

Lemma insert_delete_convergence_witness :
  apply_then_transformed "abcdef" (insert_op "A" 5 "X") (delete_op "B" 1 3)
  = apply_then_transformed "abcdef" (delete_op "B" 1 3) (insert_op "A" 5 "X")
  ∧ is_Some (apply_then_transformed "abcdef" (insert_op "A" 5 "X") (delete_op "B" 1 3)).
Proof.
  apply (insert_delete_convergence "abcdef" (insert_op "A" 5 "X") (delete_op "B" 1 3)).
  - reflexivity.
  - reflexivity.
  - unfold str_length; simpl; lia.
  - simpl; lia.
  - simpl; lia.
  - unfold str_length; simpl; lia.
  - right. simpl; lia.
Defined.

(** Inside the range the two orders differ. *)
Example insert_inside_deleted_range :
  apply_then_transformed "abcdef" (insert_op "A" 2 "X") (delete_op "B" 1 3) = Some "adef"
  ∧ apply_then_transformed "abcdef" (delete_op "B" 1 3) (insert_op "A" 2 "X") = Some "aXef".
Proof. split; reflexivity. Qed.

End transform_extras.

(** ** The loops of the pass *)

Section loop_facts.

Lemma transform_all_none (processedOps : list Operation) :
  foldl (λ acc prevOp, acc ≫= transformOperation prevOp) None processedOps = None.
Proof. by induction processedOps. Qed.

(** The inner loop started at index [j] with enough iterations left to
    reach the end of [processedOps] transforms against everything from
    [j] on; the iterations past the end read [undefined] and do nothing. *)
Lemma transform_against_drop (steps : nat) (processedOps : list Operation)
    (j : nat) (op : Operation) :
  (List.length processedOps ≤ j + steps)%nat →
  transform_against processedOps j steps op = transform_all (drop j processedOps) op.
Proof.
  revert j op. induction steps as [|k IH]; intros j op Hlen; simpl.
  - rewrite list.drop_ge by lia. done.
  - destruct (processedOps !! j) as [prevOp|] eqn:Hj.
    + rewrite (drop_S _ _ _ Hj). unfold transform_all. simpl.
      destruct (transformOperation prevOp op) as [t|].
      * apply IH. lia.
      * by rewrite transform_all_none.
    + apply lookup_ge_None in Hj. rewrite IH by lia.
      by rewrite !list.drop_ge by lia.
Qed.

Lemma process_loop_fold (operations : list Operation) (i : nat)
    (content : string) (processedOps : list Operation) :
  (List.length processedOps ≤ i)%nat →
  process_loop operations i content processedOps
  = process_fold operations content processedOps.
Proof.
  revert i content processedOps.
  induction operations as [|op rest IH]; intros i content ps Hlen; [done |].
  simpl. rewrite transform_against_drop by lia. rewrite drop_0.
  unfold process_fold. simpl.
  destruct (transform_all ps op) as [t|].
  - apply IH. rewrite length_app. simpl. lia.
  - apply IH. lia.
Qed.

(** X8.  The two index loops of a pass compute the plain algorithm: each
    operation of the queue, in order, is transformed against every
    operation accepted before it, applied if no transform reports a
    conflict, and left out otherwise. *)
Theorem pass_is_fold (operations : list Operation) (content : string) :
  process_loop operations 0 content [] = process_fold operations content [].
Proof. apply process_loop_fold. simpl. lia. Qed.

Lemma process_loop_accepted (operations : list Operation) (i : nat)
    (content : string) (processedOps : list Operation) :
  ∃ accepted,
    snd (process_loop operations i content processedOps) = processedOps ++ accepted
    ∧ fst (process_loop operations i content processedOps)
      = apply_all accepted content
    ∧ (List.length accepted ≤ List.length operations)%nat.
Proof.
  revert i content processedOps.
  induction operations as [|op rest IH]; intros i content ps; simpl.
  - exists []. by rewrite app_nil_r.
  - destruct (transform_against ps 0 i op) as [t|].
    + destruct (IH (S i) (applyOperation content t) (ps ++ [t]))
        as (acc & Hs & Hf & Hl).
      exists (t :: acc). rewrite Hs, Hf, <- app_assoc. simpl.
      repeat split; try done; lia.
    + destruct (IH (S i) content ps) as (acc & Hs & Hf & Hl).
      exists acc. repeat split; try done; lia.
Qed.

(** X9.  The content a pass ends with is the content it started from with
    the accepted operations applied in order, and a pass accepts at most
    as many operations as the queue holds. *)
Theorem pass_applies_accepted (operations : list Operation) (content : string) :
  fst (process_loop operations 0 content [])
  = apply_all (snd (process_loop operations 0 content [])) content
  ∧ (List.length (snd (process_loop operations 0 content []))
     ≤ List.length operations)%nat.
Proof.
  destruct (process_loop_accepted operations 0 content []) as (acc & Hs & Hf & Hl).
  rewrite Hs, Hf. simpl. done.
Qed.

Lemma transform_keeps_type (op1 op2 r : Operation) :
  transformOperation op1 op2 = Some r → Op.type r = Op.type op2.
Proof.
  unfold transformOperation. repeat case_match; intros; by simplify_eq.
Qed.

Lemma transform_some_unless_delete (op1 op2 : Operation) :
  Op.type op2 ≠ "delete" → is_Some (transformOperation op1 op2).
Proof.
  intros Hne. unfold transformOperation.
  destruct (String.eqb_spec (Op.type op2) "delete"); [done |].
  rewrite !andb_false_r. repeat case_match; by eexists.
Qed.

Lemma transform_against_some (steps : nat) (processedOps : list Operation)
    (j : nat) (op : Operation) :
  Op.type op ≠ "delete" →
  is_Some (transform_against processedOps j steps op).
Proof.
  revert j op. induction steps as [|k IH]; intros j op Hne; simpl; [by eexists |].
  destruct (processedOps !! j) as [prevOp|]; [| by apply IH].
  destruct (transform_some_unless_delete prevOp op Hne) as [t Ht].
  rewrite Ht. apply IH. by rewrite (transform_keeps_type _ _ _ Ht).
Qed.

Lemma process_loop_all_accepted (operations : list Operation) (i : nat)
    (content : string) (processedOps : list Operation) :
  Forall (λ op, Op.type op ≠ "delete") operations →
  List.length (snd (process_loop operations i content processedOps))
  = (List.length processedOps + List.length operations)%nat.
Proof.
  revert i content processedOps.
  induction operations as [|op rest IH]; intros i content ps Hall; simpl; [lia |].
  apply Forall_cons in Hall as [Hop Hrest].
  destruct (transform_against_some i ps 0 op Hop) as [t Ht]. rewrite Ht.
  rewrite IH by done. rewrite length_app. simpl. lia.
Qed.

(** X10.  A pass drops operations only among deletes: a queue without
    deletes is accepted whole, one applied operation per queued one. *)
Theorem pass_without_deletes (operations : list Operation) (content : string) :
  Forall (λ op, Op.type op ≠ "delete") operations →
  List.length (snd (process_loop operations 0 content []))
  = List.length operations.
Proof. intros H. by rewrite process_loop_all_accepted. Qed.

Lemma pass_without_deletes_witness :
  List.length (snd (process_loop ten_inserts 0 "" [])) = List.length ten_inserts.
Proof.
  apply (pass_without_deletes ten_inserts "").
  unfold ten_inserts. simpl. repeat constructor; discriminate.
Defined.

End loop_facts.

(** ** What a pass touches *)

Section pass_facts.

(** X11.  A pass for one document leaves every other document and every
    other queue as they were, and touches nothing but the store and the
    queues: users, sockets, connections, sessions, locks, cursors, timers
    and the activity log are unchanged. *)
Theorem pass_frame (now : Z) (saveError : option string)
    (documentId other : string) (w : World) :
  other ≠ documentId →
  let w' := fst (processPendingOperations now saveError documentId w) in
  documents w' !! other = documents w !! other
  ∧ pendingOperations w' !! other = pendingOperations w !! other
  ∧ users w' = users w ∧ sockets w' = sockets w
  ∧ activeConnections w' = activeConnections w
  ∧ documentSessions w' = documentSessions w
  ∧ documentLocks w' = documentLocks w
  ∧ userCursors w' = userCursors w
  ∧ timers w' = timers w ∧ activities w' = activities w.
Proof.
  intros Hne. unfold processPendingOperations.
  repeat case_match; simpl; rewrite ?lookup_insert_ne, ?lookup_delete_ne by done;
    done.
Qed.

Lemma pass_frame_witness :
  documents (fst (processPendingOperations 500 None "doc1" scenario_world)) !! "doc2"
  = documents scenario_world !! "doc2".
Proof.
  apply (pass_frame 500 None "doc1" "doc2" scenario_world). discriminate.
Defined.

(** X12.  A pass that succeeds drains the queue: the next pass for the
    same document, whenever it runs and however its save would end, finds
    nothing to do and leaves the state alone. *)
Theorem pass_drains_queue (now now' : Z) (saveError' : option string)
    (documentId : string) (w : World) (newContent : string) (version : JSNumber) :
  snd (processPendingOperations now None documentId w)
  = Some (PassSuccess newContent version) →
  processPendingOperations now' saveError' documentId
    (fst (processPendingOperations now None documentId w))
  = (fst (processPendingOperations now None documentId w), None).
Proof.
  unfold processPendingOperations at 1 3 4. intros H.
  repeat case_match; simplify_eq; simpl in *.
  unfold processPendingOperations. simpl. by rewrite lookup_delete_eq.
Qed.

Lemma pass_drains_queue_witness :
  processPendingOperations 900 (Some "disk full") "doc1"
    (fst (processPendingOperations 500 None "doc1" scenario_world))
  = (fst (processPendingOperations 500 None "doc1" scenario_world), None).
Proof.
  apply (pass_drains_queue 500 900 (Some "disk full") "doc1" scenario_world
           ">> hello world" (Num 2)).
  reflexivity.
Defined.

(** X13.  A pass that does not succeed changes nothing.  When the queue
    is not empty and the document exists, a throwing [document.save()]
    gives the result [success: false] with the error message, and the
    store and the queue stay as they were, so that the same operations are
    taken up again by the next pass; a queue whose document is missing is
    kept too. *)
Theorem pass_without_success (now : Z) (saveError : option string)
    (documentId : string) (w : World) :
  (∀ newContent version,
     snd (processPendingOperations now saveError documentId w)
     ≠ Some (PassSuccess newContent version)) →
  fst (processPendingOperations now saveError documentId w) = w
  ∧ (∀ operations document message,
       pendingOperations w !! documentId = Some operations →
       operations ≠ [] →
       documents w !! documentId = Some document →
       saveError = Some message →
       snd (processPendingOperations now saveError documentId w)
       = Some (PassFailure message)).
Proof.
  intros Hno. split.
  - revert Hno. unfold processPendingOperations.
    repeat case_match; simpl; try done.
    intros Hno. by specialize (Hno _ _ eq_refl).
  - intros ops document m Hq Hne Hd ->. unfold processPendingOperations.
    rewrite Hq, Hd. simpl. destruct ops; [done |].
    rewrite decide_False by done. by case_match.
Qed.

Lemma pass_without_success_witness :
  fst (processPendingOperations 500 (Some "disk full") "doc1" scenario_world)
  = scenario_world.
Proof.
  apply (pass_without_success 500 (Some "disk full") "doc1" scenario_world).
  intros c v. vm_compute. discriminate.
Defined.

End pass_facts.

(** ** Access checks *)

Section access_facts.

(** No level is below the one "view" asks for. *)
Lemma permissionLevel_view (p : string) :
  js_lt (permissionLevel p) (permissionLevel "view") = false.
Proof.
  change (permissionLevel "view") with (Num 1).
  unfold permissionLevel. repeat case_match; done.
Qed.

(** The levels that pass the test against "edit". *)
Lemma permissionLevel_edit (p : string) :
  js_lt (permissionLevel p) (permissionLevel "edit") = false →
  p = "edit" ∨ p ∈ inherited_names.
Proof.
  change (permissionLevel "edit") with (Num 3). unfold permissionLevel.
  destruct (String.eqb_spec p "view"); [done |].
  destruct (String.eqb_spec p "comment"); [done |].
  destruct (String.eqb_spec p "edit"); [by left |].
  case_bool_decide; [by right | done].
Qed.

(** X14.  Access is granted only to a stored document of the caller's
    organization that is not deleted and whose owner still exists, and the
    document handed back is the stored one.  The role tells why: "owner"
    for the owner, "viewer" for a view of a document visible to the
    organization by someone without a share, "collaborator" with the
    share's permission for the holder of an active share. *)
Theorem access_granted_sound (w : World) (now : Z)
    (userId documentId organizationId permission : string)
    (document : Doc.t) (role : string) (granted : option string) :
  checkDocumentAccess w now userId documentId organizationId permission
  = Granted document role granted →
  documents w !! documentId = Some document
  ∧ Doc.organization document = organizationId
  ∧ Doc.status document ≠ "deleted"
  ∧ is_Some (users w !! Doc.owner document)
  ∧ ((role = "owner" ∧ granted = None ∧ Doc.owner document = userId)
     ∨ (role = "viewer" ∧ granted = None ∧ permission = "view"
        ∧ Doc.visibility document = "organization")
     ∨ (role = "collaborator"
        ∧ ∃ share, share ∈ Doc.sharedWith document
                   ∧ Share.user share = userId ∧ Share.isActive share = true
                   ∧ granted = Some (Share.permission share))).
Proof.
  unfold checkDocumentAccess. intros H.
  destruct (documents w !! documentId) as [doc|]; [| done].
  destruct (String.eqb_spec (Doc.organization doc) organizationId) as [Horg|];
    [| done].
  destruct (String.eqb_spec (Doc.status doc) "deleted") as [|Hst]; [done |].
  simpl in H.
  destruct (users w !! Doc.owner doc) as [owner|] eqn:Ho; [| done].
  destruct (match User.organization owner with
            | Some o => negb (o =? organizationId)%string
            | None => false
            end); [done |].
  destruct (String.eqb_spec (Doc.owner doc) userId) as [Hown|].
  { simplify_eq. split_and!; try done. by left. }
  destruct (find _ (Doc.sharedWith doc)) as [share|] eqn:Hfind.
  - apply find_some in Hfind as [Hin Hb].
    apply andb_prop in Hb as [Hu Ha]. apply String.eqb_eq in Hu.
    repeat case_match; simplify_eq;
      (split_and!; try done);
      right; right; (split; [done |]); exists share;
      (split_and!; try done); by apply list_elem_of_In.
  - destruct (String.eqb_spec (Doc.visibility doc) "organization"); [| done].
    destruct (String.eqb_spec permission "view"); [| done].
    simpl in H. simplify_eq. split_and!; try done.
    right; left. done.
Qed.

Lemma access_granted_sound_witness :
  documents (sample_world "" None) !! "doc1" = Some (sample_doc "Notes" "" None)
  ∧ Doc.organization (sample_doc "Notes" "" None) = "org1".
Proof.
  destruct (access_granted_sound (sample_world "" None) 5 "bob" "doc1" "org1" "edit"
              (sample_doc "Notes" "" None) "collaborator" (Some "edit"))
    as (H1 & H2 & _).
  - reflexivity.
  - split; [exact H1 | exact H2].
Defined.

(** X15.  The owner of a document is granted every tier, whatever the
    shares and the visibility say, as long as the document is in the
    caller's organization, not deleted, and the owner's own organization
    is that one or unset. *)
Theorem owner_always_granted (w : World) (now : Z)
    (userId documentId organizationId permission : string)
    (document : Doc.t) (owner : User.t) :
  documents w !! documentId = Some document →
  Doc.organization document = organizationId →
  Doc.status document ≠ "deleted" →
  users w !! Doc.owner document = Some owner →
  User.organization owner = None ∨ User.organization owner = Some organizationId →
  Doc.owner document = userId →
  checkDocumentAccess w now userId documentId organizationId permission
  = Granted document "owner" None.
Proof.
  intros Hd Horg Hst Ho Hoo Hu. unfold checkDocumentAccess.
  rewrite Hd, Horg, String.eqb_refl. simpl.
  destruct (String.eqb_spec (Doc.status document) "deleted"); [done |]. simpl.
  rewrite Ho.
  destruct Hoo as [->| ->]; rewrite ?String.eqb_refl; simpl;
    by rewrite Hu, String.eqb_refl.
Qed.

Lemma owner_always_granted_witness :
  checkDocumentAccess (sample_world "" None) 5 "alice" "doc1" "org1" "edit"
  = Granted (sample_doc "Notes" "" None) "owner" None.
Proof.
  apply (owner_always_granted (sample_world "" None) 5 "alice" "doc1" "org1" "edit"
           (sample_doc "Notes" "" None) alice).
  - reflexivity.
  - reflexivity.
  - discriminate.
  - reflexivity.
  - right. reflexivity.
  - reflexivity.
Defined.

(** X16.  Whoever is granted some tier is granted "view": the same
    request for "view" succeeds with the same document, role and
    permission. *)
Theorem access_implies_view (w : World) (now : Z)
    (userId documentId organizationId permission : string)
    (document : Doc.t) (role : string) (granted : option string) :
  checkDocumentAccess w now userId documentId organizationId permission
  = Granted document role granted →
  checkDocumentAccess w now userId documentId organizationId "view"
  = Granted document role granted.
Proof.
  unfold checkDocumentAccess.
  destruct (documents w !! documentId) as [doc|]; [| done].
  destruct (String.eqb_spec (Doc.organization doc) organizationId); [| done].
  destruct (String.eqb_spec (Doc.status doc) "deleted"); [done |]. simpl.
  destruct (users w !! Doc.owner doc) as [owner|]; [| done].
  destruct (match User.organization owner with
            | Some o => negb (o =? organizationId)%string
            | None => false
            end); [done |].
  destruct (String.eqb_spec (Doc.owner doc) userId); [done |].
  destruct (find _ (Doc.sharedWith doc)) as [share|].
  - destruct (match Share.expiresAt share with
              | Some e => e <? now
              | None => false
              end); [done |].
    destruct (js_lt (permissionLevel (Share.permission share))
                (permissionLevel permission)); [done |].
    intros Hg. by rewrite permissionLevel_view.
  - destruct (String.eqb_spec (Doc.visibility doc) "organization"); [| done].
    by destruct (String.eqb_spec permission "view").
Qed.

Lemma access_implies_view_witness :
  checkDocumentAccess (sample_world "" None) 5 "bob" "doc1" "org1" "view"
  = Granted (sample_doc "Notes" "" None) "collaborator" (Some "edit").
Proof.
  apply (access_implies_view (sample_world "" None) 5 "bob" "doc1" "org1" "edit").
  reflexivity.
Defined.

(** X17.  The "edit" tier is granted to the owner, or to the holder of
    an active share whose permission is the string "edit" or one of the
    names inherited from [Object.prototype] (such a name looks up a
    function, which no comparison ranks below "edit"), and to nobody else:
    a share with any other permission, "viewer", "editor" and "admin"
    included, ranks as a view and does not let its holder edit. *)
Theorem edit_needs_owner_or_edit_share (w : World) (now : Z)
    (userId documentId organizationId : string)
    (document : Doc.t) (role : string) (granted : option string) :
  checkDocumentAccess w now userId documentId organizationId "edit"
  = Granted document role granted →
  (role = "owner" ∧ Doc.owner document = userId)
  ∨ (role = "collaborator"
     ∧ ∃ p, granted = Some p ∧ (p = "edit" ∨ p ∈ inherited_names)).
Proof.
  unfold checkDocumentAccess.
  destruct (documents w !! documentId) as [doc|]; [| done].
  destruct (String.eqb_spec (Doc.organization doc) organizationId); [| done].
  destruct (String.eqb_spec (Doc.status doc) "deleted"); [done |]. simpl.
  destruct (users w !! Doc.owner doc) as [owner|]; [| done].
  destruct (match User.organization owner with
            | Some o => negb (o =? organizationId)%string
            | None => false
            end); [done |].
  destruct (String.eqb_spec (Doc.owner doc) userId).
  { intros Hg. simplify_eq. by left. }
  destruct (find _ (Doc.sharedWith doc)) as [share|].
  - destruct (match Share.expiresAt share with
              | Some e => e <? now
              | None => false
              end); [done |].
    destruct (js_lt (permissionLevel (Share.permission share))
                (permissionLevel "edit")) eqn:Hlt; [done |].
    intros Hg. simplify_eq. right. split; [done |].
    exists (Share.permission share). split; [done |].
    by apply permissionLevel_edit.
  - by rewrite andb_false_r.
Qed.

Lemma edit_needs_owner_or_edit_share_witness :
  ("collaborator" = "owner" ∧ Doc.owner (sample_doc "Notes" "" None) = "bob")
  ∨ ("collaborator" = "collaborator"
     ∧ ∃ p, Some "edit" = Some p ∧ (p = "edit" ∨ p ∈ inherited_names)).
Proof.
  apply (edit_needs_owner_or_edit_share (sample_world "" None) 5 "bob" "doc1" "org1"
           (sample_doc "Notes" "" None) "collaborator" (Some "edit")).
  reflexivity.
Defined.

(** The schema values of a share's permission do not reach "edit", an
    inherited name does. *)
Example share_levels_against_edit :
  js_lt (permissionLevel "viewer") (permissionLevel "edit") = true
  ∧ js_lt (permissionLevel "editor") (permissionLevel "edit") = true
  ∧ js_lt (permissionLevel "admin") (permissionLevel "edit") = true
  ∧ js_lt (permissionLevel "constructor") (permissionLevel "edit") = false
  ∧ checkDocumentAccess
      (empty_world
         (<["d" := Doc.make "T" "" None 0 "org1" "draft" "alice" "private"
                     [Share.make "bob" "constructor" true None]]> ∅)
         sample_users)
      5 "bob" "d" "org1" "edit"
    = Granted (Doc.make "T" "" None 0 "org1" "draft" "alice" "private"
                 [Share.make "bob" "constructor" true None])
        "collaborator" (Some "constructor").
Proof. split_and!; reflexivity. Qed.

(** X18.  The second organization test can never fire: the query has
    already filtered on the organization, so a request for a document of
    another organization is answered 'Document not found', never
    'Cross-organization access denied'. *)
Theorem cross_organization_not_found (w : World) (now : Z)
    (userId documentId organizationId permission : string) :
  checkDocumentAccess w now userId documentId organizationId permission
  ≠ Denied "Cross-organization access denied"
  ∧ (∀ document,
       documents w !! documentId = Some document →
       Doc.organization document ≠ organizationId →
       checkDocumentAccess w now userId documentId organizationId permission
       = Denied "Document not found").
Proof.
  unfold checkDocumentAccess. split.
  - destruct (documents w !! documentId) as [doc|]; [| done].
    destruct (String.eqb_spec (Doc.organization doc) organizationId); [| done].
    destruct (String.eqb_spec (Doc.status doc) "deleted"); [done |]. simpl.
    repeat case_match; done.
  - intros doc -> Hne.
    by destruct (String.eqb_spec (Doc.organization doc) organizationId).
Qed.

(** X19.  An expired share shuts its holder out altogether: every tier is
    refused with 'Access expired', even "view" of a document visible to
    the whole organization, which a member without any share would get. *)
Theorem expired_share_refused (w : World) (now : Z)
    (userId documentId organizationId permission : string)
    (document : Doc.t) (owner : User.t) (share : Share.t) (expiry : Z) :
  documents w !! documentId = Some document →
  Doc.organization document = organizationId →
  Doc.status document ≠ "deleted" →
  users w !! Doc.owner document = Some owner →
  User.organization owner = None ∨ User.organization owner = Some organizationId →
  Doc.owner document ≠ userId →
  find (λ share, (Share.user share =? userId)%string && Share.isActive share)
    (Doc.sharedWith document) = Some share →
  Share.expiresAt share = Some expiry →
  expiry < now →
  checkDocumentAccess w now userId documentId organizationId permission
  = Denied "Access expired".
Proof.
  intros Hd Horg Hst Ho Hoo Hu Hf He Hlt. unfold checkDocumentAccess.
  rewrite Hd, Horg, String.eqb_refl. simpl.
  destruct (String.eqb_spec (Doc.status document) "deleted"); [done |]. simpl.
  rewrite Ho.
  destruct (String.eqb_spec (Doc.owner document) userId); [done |].
  rewrite Hf, He.
  destruct (Z.ltb_spec expiry now); [| lia].
  by destruct Hoo as [->| ->]; rewrite ?String.eqb_refl.
Qed.

Lemma expired_share_refused_witness :
  checkDocumentAccess
    (empty_world
       (<["d" := Doc.make "T" "" None 0 "org1" "draft" "alice" "organization"
                   [Share.make "bob" "edit" true (Some 100)]]> ∅)
       sample_users)
    101 "bob" "d" "org1" "view"
  = Denied "Access expired".
Proof.
  apply (expired_share_refused _ 101 "bob" "d" "org1" "view"
           (Doc.make "T" "" None 0 "org1" "draft" "alice" "organization"
              [Share.make "bob" "edit" true (Some 100)])
           alice (Share.make "bob" "edit" true (Some 100)) 100).
  - reflexivity.
  - reflexivity.
  - discriminate.
  - reflexivity.
  - right. reflexivity.
  - discriminate.
  - reflexivity.
  - reflexivity.
  - lia.
Defined.

(** X20.  A socket of one organization can neither join nor edit a
    document of another: both handlers leave the state as it was and
    answer the sender alone, with 'Document not found'. *)
Theorem other_organization_refused (now : Z) (random : string) (s : nat)
    (documentId : string) (operation : Operation) (w : World)
    (socket : Socket.t) (document : Doc.t) :
  sockets w !! s = Some socket →
  documentId ≠ "" →
  documents w !! documentId = Some document →
  Doc.organization document ≠ Socket.organizationId socket →
  join_document now s (Some documentId) w
  = (w, [(ToSocket s, ErrorMessage "Document not found")])
  ∧ document_operation now random s (Some documentId) (Some operation) w
    = (w, [(ToSocket s, ErrorMessage "Document not found")]).
Proof.
  intros Hs Hne Hd Horg.
  assert (Hden : ∀ p, checkDocumentAccess w now (Socket.userId socket) documentId
                        (Socket.organizationId socket) p
                      = Denied "Document not found").
  { intros p. unfold checkDocumentAccess. rewrite Hd.
    by destruct (String.eqb_spec (Doc.organization document)
                   (Socket.organizationId socket)). }
  unfold join_document, document_operation, truthy. rewrite Hs.
  destruct (String.eqb_spec documentId ""); [done |].
  by rewrite !Hden.
Qed.

Lemma other_organization_refused_witness :
  join_document 11 2 (Some "doc1")
    (fst (run (session_with_stranger "mallory" mallory "org2")
            (sample_world "" (Some (Num 1)))))
  = (fst (run (session_with_stranger "mallory" mallory "org2")
            (sample_world "" (Some (Num 1)))),
     [(ToSocket 2%nat, ErrorMessage "Document not found")]).
Proof.
  apply (other_organization_refused 11 "0.5" 2 "doc1" scenario_A _
           (Socket.make "mallory" mallory "org2" None None [])
           (sample_doc "Notes" "" (Some (Num 1)))).
  - vm_compute; reflexivity.
  - discriminate.
  - vm_compute; reflexivity.
  - discriminate.
Defined.

End access_facts.

(** ** Shape of the session maps *)

Section session_shape.

Ltac world_unfold :=
  unfold set_documents, set_sockets, set_activeConnections,
    set_documentSessions, set_documentLocks, set_userCursors,
    set_pendingOperations, set_timers, set_activities, update_socket in *;
  simpl in *.

Lemma sessions_wf_same (w w' : World) :
  documentSessions w' = documentSessions w →
  userCursors w' = userCursors w →
  documentLocks w' = documentLocks w →
  sessions_wf w → sessions_wf w'.
Proof. unfold sessions_wf. by intros -> -> ->. Qed.

Lemma sessions_wf_empty (docs : gmap string Doc.t) (us : gmap string User.t) :
  sessions_wf (empty_world docs us).
Proof.
  split_and!; simpl; [| | done].
  - intros d. rewrite !lookup_empty. done.
  - intros d ms. by rewrite lookup_empty.
Qed.

Lemma set_add_nonempty (x : string) (l : list string) : set_add x l ≠ [].
Proof.
  unfold set_add. case_decide as Hin.
  - intros ->. by apply not_elem_of_nil in Hin.
  - by destruct l.
Qed.

Lemma set_add_NoDup (x : string) (l : list string) : NoDup l → NoDup (set_add x l).
Proof.
  intros Hl. unfold set_add. case_decide; [done |].
  apply NoDup_app. split_and!; [done | | apply NoDup_singleton].
  intros y Hy Hx. apply list_elem_of_singleton in Hx. by subst.
Qed.

Lemma set_delete_NoDup (x : string) (l : list string) :
  NoDup l → NoDup (set_delete x l).
Proof. intros. by apply NoDup_filter. Qed.

Lemma join_document_wf (now : Z) (s : nat) (documentId : option string) (w : World) :
  sessions_wf w → sessions_wf (fst (join_document now s documentId w)).
Proof.
  intros (Hdom & Hmem & Hlocks). unfold join_document.
  destruct (sockets w !! s) as [socket|]; [| done].
  destruct (truthy documentId) as [d|]; [| done].
  destruct (checkDocumentAccess _ _ _ _ _ _) as [document role permission|];
    [| done].
  assert (Hnew : set_add (Socket.userId socket) (default [] (documentSessions w !! d)) ≠ []
                 ∧ NoDup (set_add (Socket.userId socket)
                            (default [] (documentSessions w !! d)))).
  { split; [apply set_add_nonempty |]. apply set_add_NoDup.
    destruct (documentSessions w !! d) as [ms|] eqn:E; simpl.
    - by apply (Hmem d ms).
    - apply NoDup_nil_2. }
  world_unfold.
  destruct (userCursors w !! d) as [cs|] eqn:Hcs; simpl;
    (split_and!; simpl; [| | done]).
  - intros d'. destruct (decide (d' = d)) as [->|Hne].
    + rewrite lookup_insert_eq, Hcs. split; by eexists.
    + by rewrite lookup_insert_ne.
  - intros d' ms. destruct (decide (d' = d)) as [->|Hne].
    + rewrite lookup_insert_eq. intros. by simplify_eq.
    + rewrite lookup_insert_ne by done. apply Hmem.
  - intros d'. destruct (decide (d' = d)) as [->|Hne].
    + rewrite !lookup_insert_eq. split; by eexists.
    + by rewrite !lookup_insert_ne.
  - intros d' ms. destruct (decide (d' = d)) as [->|Hne].
    + rewrite lookup_insert_eq. intros. by simplify_eq.
    + rewrite lookup_insert_ne by done. apply Hmem.
Qed.

Lemma cursor_position_wf (s : nat) (documentId : option string)
    (position : option Z) (w : World) :
  sessions_wf w → sessions_wf (fst (cursor_position s documentId position w)).
Proof.
  intros (Hdom & Hmem & Hlocks). unfold cursor_position.
  destruct (sockets w !! s) as [socket|]; [| done].
  destruct (truthy documentId) as [d|]; [| done].
  destruct position as [p|]; [| done].
  destruct (userCursors w !! d) as [cs|] eqn:Hcs; [| done].
  world_unfold. split_and!; simpl; [| done | done].
  intros d'. destruct (decide (d' = d)) as [->|Hne].
  - rewrite lookup_insert_eq. rewrite <- Hdom, Hcs. split; by eexists.
  - by rewrite lookup_insert_ne.
Qed.

Lemma remove_from_session_wf (u d : string) (w : World) :
  sessions_wf w → sessions_wf (remove_from_session u d w).
Proof.
  intros (Hdom & Hmem & Hlocks). unfold remove_from_session.
  destruct (documentSessions w !! d) as [ms|] eqn:Hms.
  - destruct (decide (List.length (set_delete u ms) = 0%nat)) as [Hempty|Hnonempty];
      world_unfold.
    + rewrite lookup_delete_eq. simpl. split_and!; simpl.
      * intros d'. destruct (decide (d' = d)) as [->|Hne].
        -- rewrite !lookup_delete_eq. split; by intros [? ?].
        -- by rewrite !lookup_delete_ne.
      * intros d' ms'. destruct (decide (d' = d)) as [->|Hne].
        -- by rewrite lookup_delete_eq.
        -- rewrite lookup_delete_ne by done. apply Hmem.
      * rewrite Hlocks. apply delete_empty.
    + destruct (Hdom d) as [_ Hcs]. destruct Hcs as [cs Hcs]; [by eexists |].
      rewrite Hcs. simpl. split_and!; simpl; [| | done].
      * intros d'. destruct (decide (d' = d)) as [->|Hne].
        -- rewrite !lookup_insert_eq. split; by eexists.
        -- by rewrite !lookup_insert_ne.
      * intros d' ms'. destruct (decide (d' = d)) as [->|Hne].
        -- rewrite lookup_insert_eq. intros ?; simplify_eq. split.
           ++ intros E. by rewrite E in Hnonempty.
           ++ apply set_delete_NoDup. by apply (Hmem d ms).
        -- rewrite lookup_insert_ne by done. apply Hmem.
  - destruct (userCursors w !! d) as [cs|] eqn:Hcs; [| done].
    destruct (Hdom d) as [Hs _]. destruct Hs as [? ?]; [by eexists | congruence].
Qed.

Lemma leave_document_wf (s : nat) (documentId : option string) (w : World) :
  sessions_wf w → sessions_wf (fst (leave_document s documentId w)).
Proof.
  intros Hwf. unfold leave_document.
  destruct (sockets w !! s) as [socket|]; [| done].
  destruct (truthy documentId) as [d|]; [| done].
  case_decide; [| done]. simpl.
  by eapply sessions_wf_same;
    [| | | apply (remove_from_session_wf (Socket.userId socket) d), Hwf].
Qed.

Lemma disconnect_wf (s : nat) (w : World) :
  sessions_wf w → sessions_wf (fst (disconnect s w)).
Proof.
  intros Hwf. unfold disconnect.
  destruct (sockets w !! s) as [socket|]; [| done].
  destruct (truthy (Socket.currentDocument socket)) as [d|]; simpl.
  - eapply sessions_wf_same;
      [| | | apply (remove_from_session_wf (Socket.userId socket) d);
             eapply sessions_wf_same; [| | | exact Hwf]]; done.
  - by eapply sessions_wf_same; [| | | exact Hwf].
Qed.

Lemma pass_keeps_locks (now : Z) (saveError : option string)
    (documentId : string) (w : World) :
  documentLocks (fst (processPendingOperations now saveError documentId w))
  = documentLocks w.
Proof. unfold processPendingOperations. repeat case_match; by simpl. Qed.

Lemma step_wf (e : Event) (w : World) :
  sessions_wf w → sessions_wf (fst (step e w)).
Proof.
  intros Hwf. destruct e; simpl.
  - unfold connection. destruct (sockets w !! s); [done |].
    by eapply sessions_wf_same; [| | | exact Hwf].
  - by apply join_document_wf.
  - unfold document_operation.
    repeat case_match; try done; by eapply sessions_wf_same; [| | | exact Hwf].
  - by apply cursor_position_wf.
  - by apply leave_document_wf.
  - by apply disconnect_wf.
  - unfold timer_fired. destruct (timers w) as [|[s d] rest]; [done |].
    destruct (pass_keeps_sessions now saveError d (set_timers w rest)) as [E1 E2].
    pose proof (pass_keeps_locks now saveError d (set_timers w rest)) as E3.
    destruct (processPendingOperations _ _ _ _) as [w1 result].
    simpl in E1, E2, E3.
    assert (sessions_wf w1) by (by eapply sessions_wf_same; [| | | exact Hwf]).
    by repeat case_match.
Qed.

Lemma run_wf (es : list Event) (w : World) :
  sessions_wf w → sessions_wf (fst (run es w)).
Proof.
  revert w. induction es as [|e rest IH]; intros w Hwf; [done |].
  rewrite run_cons. by apply IH, step_wf.
Qed.

(** X21.  In every state the handlers can reach from a start with no
    session, a document has a cursor map exactly when it has a session,
    no session is empty (a session that loses its last member is deleted
    together with its cursor map), no member is listed twice, and no lock
    is ever stored. *)
Theorem reachable_sessions_wf (es : list Event)
    (docs : gmap string Doc.t) (us : gmap string User.t) :
  sessions_wf (fst (run es (empty_world docs us))).
Proof. apply run_wf, sessions_wf_empty. Qed.

(** X22.  From a start with no session, a trace in which every cursor
    position is sent by a member of the document it names never leaves a
    cursor entry for a principal who is not a member: joins, leaves,
    disconnects, operations and passes all keep cursors within members. *)
Theorem reachable_presence (es : list Event)
    (docs : gmap string Doc.t) (us : gmap string User.t) :
  cursors_from_members es (empty_world docs us) →
  presence_invariant (fst (run es (empty_world docs us))).
Proof. intros H. apply run_presence; [apply presence_empty | done]. Qed.

Lemma reachable_presence_witness :
  presence_invariant
    (fst (run (first_join_trace ++ [LeaveDocument 1 (Some "doc1")])
            (empty_world (sample_store "" None) sample_users))).
Proof.
  apply (reachable_presence (first_join_trace ++ [LeaveDocument 1 (Some "doc1")])
           (sample_store "" None) sample_users).
  simpl. split_and!; try done.
  intros socket Hs. vm_compute in Hs. injection Hs as <-.
  vm_compute. apply list_elem_of_here.
Defined.

End session_shape.

(** ** Joining and leaving *)

Section join_leave.

Ltac world_unfold :=
  unfold set_documents, set_sockets, set_activeConnections,
    set_documentSessions, set_documentLocks, set_userCursors,
    set_pendingOperations, set_timers, set_activities, update_socket in *;
  simpl in *.

(** X23.  Leaving is idempotent, and a leave for a document other than
    the current one of the socket is ignored: a second [leave-document]
    right after the first changes nothing and notifies nobody. *)
Theorem leave_twice (s : nat) (documentId : option string) (w : World) :
  leave_document s documentId (fst (leave_document s documentId w))
  = (fst (leave_document s documentId w), [])
  ∧ (∀ socket d,
       sockets w !! s = Some socket →
       Socket.currentDocument socket ≠ Some d →
       leave_document s (Some d) w = (w, [])).
Proof.
  split.
  - destruct (sockets w !! s) as [socket|] eqn:Hs.
    2: { assert (E : leave_document s documentId w = (w, []))
           by (unfold leave_document; by rewrite Hs).
         rewrite E. exact E. }
    destruct (truthy documentId) as [d|] eqn:Hd.
    2: { assert (E : leave_document s documentId w = (w, []))
           by (unfold leave_document; by rewrite Hs, Hd).
         rewrite E. exact E. }
    destruct (decide (Socket.currentDocument socket = Some d)) as [Hcur|Hcur].
    2: { assert (E : leave_document s documentId w = (w, []))
           by (unfold leave_document; rewrite Hs, Hd; by rewrite decide_False).
         rewrite E. exact E. }
    assert (E : ∃ w1 out left_,
               leave_document s documentId w = (update_socket w1 s left_, out)
               ∧ Socket.currentDocument left_ = None).
    { unfold leave_document. rewrite Hs, Hd, decide_True by done.
      by eexists _, _, _. }
    destruct E as (w1 & out & left_ & E & Hnone). rewrite E. simpl.
    unfold leave_document, update_socket. simpl.
    rewrite lookup_insert_eq, Hd, Hnone. by rewrite decide_False.
  - intros socket d Hs Hcur. unfold leave_document. rewrite Hs.
    destruct (truthy (Some d)) as [d'|] eqn:Hd; [| done].
    assert (d' = d) as ->.
    { unfold truthy in Hd. by destruct (d =? "")%string; simplify_eq. }
    by rewrite decide_False.
Qed.

Lemma set_delete_add (x : string) (l : list string) :
  (x ∉ l) → set_delete x (set_add x l) = l.
Proof.
  intros Hx. unfold set_add, set_delete. rewrite decide_False by done.
  rewrite filter_app. rewrite (filter_cons_False _ x); [| by intros ?].
  rewrite filter_nil, app_nil_r.
  induction l as [|y l IH]; [done |].
  apply not_elem_of_cons in Hx as [Hy Hl].
  rewrite filter_cons_True by done. by rewrite IH.
Qed.

(** What [remove_from_session] leaves behind for the user it removes. *)
Lemma remove_from_session_gone (u d : string) (w : World) :
  (u ∉ members (remove_from_session u d w) d)
  ∧ cursors (remove_from_session u d w) d !! u = None.
Proof.
  unfold remove_from_session, members, cursors.
  destruct (documentSessions w !! d) as [ms|] eqn:Hms.
  - destruct (decide (List.length (set_delete u ms) = 0%nat)) as [Hempty|Hnonempty];
      world_unfold.
    + repeat (rewrite lookup_delete_eq; simpl).
      split; [apply not_elem_of_nil | apply lookup_empty].
    + destruct (userCursors w !! d) as [cs|] eqn:Hcs; simpl;
        rewrite ?lookup_insert_eq, ?Hcs; simpl.
      * split; [| apply lookup_delete_eq].
        unfold set_delete. rewrite list_elem_of_filter. by intros [? _].
      * split; [| apply lookup_empty].
        unfold set_delete. rewrite list_elem_of_filter. by intros [? _].
  - destruct (userCursors w !! d) as [cs|] eqn:Hcs; world_unfold;
      rewrite ?lookup_insert_eq, ?Hms, ?Hcs; simpl.
    + split; [apply not_elem_of_nil | apply lookup_delete_eq].
    + split; [apply not_elem_of_nil | apply lookup_empty].
Qed.

(** X24.  Leaving and disconnecting both dismiss the principal: after a
    [leave-document] for the current document, and after a [disconnect]
    of a socket with a current document, the user is no member of that
    document's session and has no cursor entry there; the disconnect also
    removes the socket and the user's entry in [activeConnections], and
    each notifies the room with one [user-left]. *)
Theorem dismissed_after_leave_or_disconnect (s : nat) (d : string) (w : World)
    (socket : Socket.t) :
  sockets w !! s = Some socket →
  Socket.currentDocument socket = Some d →
  d ≠ "" →
  let left := leave_document s (Some d) w in
  let gone := disconnect s w in
  (Socket.userId socket ∉ members (fst left) d)
  ∧ cursors (fst left) d !! Socket.userId socket = None
  ∧ Socket.currentDocument <$> sockets (fst left) !! s = Some None
  ∧ (Socket.userId socket ∉ members (fst gone) d)
  ∧ cursors (fst gone) d !! Socket.userId socket = None
  ∧ sockets (fst gone) !! s = None
  ∧ activeConnections (fst gone) !! Socket.userId socket = None
  ∧ snd left = [(ToRoomExcept d s,
                 UserLeft (Socket.userId socket) (User.name (Socket.user socket)))]
  ∧ snd gone = snd left.
Proof.
  intros Hs Hcur Hd.
  assert (Ht : truthy (Some d) = Some d).
  { unfold truthy. by destruct (String.eqb_spec d ""). }
  unfold leave_document, disconnect. rewrite Hs, Hcur, Ht.
  rewrite decide_True by done. simpl.
  destruct (remove_from_session_gone (Socket.userId socket) d w) as [G1 G2].
  destruct (remove_from_session_gone (Socket.userId socket) d
              (set_activeConnections w
                 (delete (Socket.userId socket) (activeConnections w))))
    as [G3 G4].
  split_and!; try done.
  - unfold update_socket. simpl. by rewrite lookup_insert_eq.
  - by rewrite lookup_delete_eq.
  - assert (E : activeConnections
                  (remove_from_session (Socket.userId socket) d
                     (set_activeConnections w
                        (delete (Socket.userId socket) (activeConnections w))))
                = delete (Socket.userId socket) (activeConnections w)).
    { unfold remove_from_session. repeat case_match; by simpl. }
    rewrite E. apply lookup_delete_eq.
Qed.

Lemma dismissed_after_leave_or_disconnect_witness :
  let w := fst (run first_join_trace (sample_world "" (Some (Num 1)))) in
  ("alice" ∉ members (fst (leave_document 1 (Some "doc1") w)) "doc1")
  ∧ cursors (fst (leave_document 1 (Some "doc1") w)) "doc1" !! "alice" = None.
Proof.
  set (w := fst _).
  destruct (dismissed_after_leave_or_disconnect 1 "doc1" w
              (Socket.make "alice" alice "org1" (Some "doc1") None ["doc1"]))
    as (H1 & H2 & _).
  - vm_compute; reflexivity.
  - reflexivity.
  - discriminate.
  - split; [exact H1 | exact H2].
Defined.

End join_leave.

Section round_trip.

Lemma world_eq (w w' : World) :
  documents w = documents w' → users w = users w' → sockets w = sockets w' →
  activeConnections w = activeConnections w' →
  documentSessions w = documentSessions w' →
  documentLocks w = documentLocks w' → userCursors w = userCursors w' →
  pendingOperations w = pendingOperations w' → timers w = timers w' →
  activities w = activities w' → w = w'.
Proof. destruct w, w'. simpl. by intros; subst. Qed.

(** The state after a join that is let in. *)
Lemma join_document_granted (now : Z) (s : nat) (d : string) (w : World)
    (socket : Socket.t) (document : Doc.t) (role : string)
    (permission : option string) :
  sockets w !! s = Some socket →
  d ≠ "" →
  checkDocumentAccess w now (Socket.userId socket) d
    (Socket.organizationId socket) "view" = Granted document role permission →
  fst (join_document now s (Some d) w)
  = mkWorld (documents w) (users w)
      (<[s := Socket.make (Socket.userId socket) (Socket.user socket)
                (Socket.organizationId socket) (Some d) permission
                (set_add d (Socket.rooms socket))]> (sockets w))
      (activeConnections w)
      (<[d := set_add (Socket.userId socket)
                (default [] (documentSessions w !! d))]> (documentSessions w))
      (documentLocks w)
      (match userCursors w !! d with
       | Some _ => userCursors w
       | None => <[d := ∅]> (userCursors w)
       end)
      (pendingOperations w) (timers w) (activities w).
Proof.
  intros Hs Hd Hacc. unfold join_document, truthy. rewrite Hs.
  destruct (String.eqb_spec d ""); [done |]. rewrite Hacc.
  unfold update_socket, set_documentSessions, set_userCursors, set_sockets.
  simpl. by destruct (userCursors w !! d).
Qed.

(** X25.  Joining a document and leaving it again is a round trip: for a
    socket that is in no document, when the user is not yet a member of
    the session and holds no cursor there, [join-document] followed by
    [leave-document] gives back the state as it was, a session created
    by the join being deleted again. *)
Theorem join_then_leave (now : Z) (s : nat) (d : string) (w : World)
    (socket : Socket.t) (document : Doc.t) (role : string)
    (permission : option string) :
  sessions_wf w →
  sockets w !! s = Some socket →
  Socket.currentDocument socket = None →
  Socket.documentPermission socket = None →
  (d ∉ Socket.rooms socket) →
  d ≠ "" →
  checkDocumentAccess w now (Socket.userId socket) d
    (Socket.organizationId socket) "view" = Granted document role permission →
  (Socket.userId socket ∉ members w d) →
  cursors w d !! Socket.userId socket = None →
  fst (leave_document s (Some d) (fst (join_document now s (Some d) w))) = w.
Proof.
  intros (Hdom & Hmem & Hlocks) Hs Hcur Hperm Hroom Hd Hacc Hnot Hnocur.
  assert (Ht : truthy (Some d) = Some d).
  { unfold truthy. by destruct (String.eqb_spec d ""). }
  unfold members, cursors in *.
  rewrite (join_document_granted now s d w socket document role permission) by done.
  unfold leave_document. simpl. unfold truthy in Ht.
  rewrite lookup_insert_eq, Ht.
  rewrite decide_True by done. simpl.
  unfold remove_from_session. simpl. rewrite lookup_insert_eq.
  destruct (userCursors w !! d) as [cs|] eqn:Hcs.
  - (* the session exists already *)
    destruct (Hdom d) as [Hex _]. destruct Hex as [ms Hms]; [by eexists |].
    destruct (Hmem d ms Hms) as [Hne _]. rewrite Hms in Hnot |- *. simpl in *.
    rewrite set_delete_add by done.
    rewrite decide_False by (by destruct ms).
    simpl. rewrite Hcs. destruct socket; simpl in *. subst.
    apply world_eq; simpl; try done.
    + rewrite insert_insert_eq. rewrite set_delete_add by done.
      by apply insert_id.
    + rewrite insert_insert_eq. by apply insert_id.
    + rewrite delete_id by done. by apply insert_id.
  - (* the join creates the session *)
    assert (Hms : documentSessions w !! d = None).
    { destruct (documentSessions w !! d) eqn:E; [| done].
      destruct (Hdom d) as [_ Hex]. destruct Hex as [? ?]; [by eexists | congruence]. }
    rewrite Hms. simpl.
    rewrite set_delete_add by apply not_elem_of_nil. simpl.
    rewrite lookup_delete_eq. destruct socket; simpl in *. subst.
    apply world_eq; simpl; try done.
    + rewrite insert_insert_eq. rewrite set_delete_add by done.
      by apply insert_id.
    + rewrite delete_insert_eq. by apply delete_id.
    + rewrite Hlocks. apply delete_empty.
    + rewrite delete_insert_eq. by apply delete_id.
Qed.

Lemma join_then_leave_witness :
  fst (leave_document 1 (Some "doc2")
         (fst (join_document 12 1 (Some "doc2")
                 (fst (run [Connection 1 "alice" alice "org1"]
                         (sample_world "" None))))))
  = fst (run [Connection 1 "alice" alice "org1"] (sample_world "" None)).
Proof.
  apply (join_then_leave 12 1 "doc2"
           (fst (run [Connection 1 "alice" alice "org1"] (sample_world "" None)))
           (Socket.make "alice" alice "org1" None None [])
           (sample_doc "Plan" "" None) "owner" None).
  - apply run_wf, sessions_wf_empty.
  - vm_compute; reflexivity.
  - reflexivity.
  - reflexivity.
  - apply not_elem_of_nil.
  - discriminate.
  - vm_compute; reflexivity.
  - apply not_elem_of_nil.
  - vm_compute; reflexivity.
Defined.

End round_trip.

Section other_documents.

Ltac world_unfold :=
  unfold set_documents, set_sockets, set_activeConnections,
    set_documentSessions, set_documentLocks, set_userCursors,
    set_pendingOperations, set_timers, set_activities, update_socket in *;
  simpl in *.

Lemma remove_from_session_other (u d other : string) (w : World) :
  other ≠ d →
  members (remove_from_session u d w) other = members w other
  ∧ cursors (remove_from_session u d w) other = cursors w other.
Proof.
  intros Hne. unfold remove_from_session, members, cursors.
  destruct (documentSessions w !! d) as [ms|].
  - destruct (decide (List.length (set_delete u ms) = 0%nat)); world_unfold.
    + rewrite lookup_delete_eq. simpl. by rewrite !lookup_delete_ne.
    + destruct (userCursors w !! d); simpl; by rewrite ?lookup_insert_ne.
  - destruct (userCursors w !! d); world_unfold; by rewrite ?lookup_insert_ne.
Qed.

(** X26.  An event changes the session and the cursors of one document at
    most, the one it names (for a disconnect, the current document of the
    socket): the members and the cursors of every other document are as
    before. *)
Theorem step_other_documents (e : Event) (w : World) (other : string) :
  event_document e w ≠ Some other →
  members (fst (step e w)) other = members w other
  ∧ cursors (fst (step e w)) other = cursors w other.
Proof.
  intros Hne. destruct e; simpl in *.
  - unfold connection. by destruct (sockets w !! s).
  - unfold join_document.
    destruct (sockets w !! s) as [socket|]; [| done].
    destruct documentId as [d|]; [| done]. simpl.
    destruct (d =? "")%string; [done |].
    destruct (checkDocumentAccess _ _ _ _ _ _); [| done].
    unfold members, cursors. world_unfold.
    destruct (userCursors w !! d); simpl;
      by rewrite ?lookup_insert_ne by congruence.
  - unfold document_operation. by repeat case_match.
  - unfold cursor_position.
    destruct (sockets w !! s) as [socket|]; [| done].
    destruct documentId as [d|]; [| done]. simpl.
    destruct (d =? "")%string; [done |].
    destruct position; [| done].
    destruct (userCursors w !! d); [| done].
    unfold members, cursors. world_unfold.
    by rewrite lookup_insert_ne by congruence.
  - unfold leave_document.
    destruct (sockets w !! s) as [socket|]; [| done].
    destruct documentId as [d|]; [| done]. simpl.
    destruct (d =? "")%string; [done |].
    case_decide; [| done]. simpl.
    apply (remove_from_session_other (Socket.userId socket) d other). congruence.
  - unfold disconnect.
    destruct (sockets w !! s) as [socket|]; [| done]. simpl in Hne.
    destruct (Socket.currentDocument socket) as [d|]; [| done]. simpl.
    destruct (d =? "")%string; [done |]. simpl.
    destruct (remove_from_session_other (Socket.userId socket) d other
                (set_activeConnections w
                   (delete (Socket.userId socket) (activeConnections w))))
      as [E1 E2]; [congruence |].
    done.
  - unfold timer_fired. destruct (timers w) as [|[s d] rest]; [done |].
    destruct (pass_keeps_sessions now saveError d (set_timers w rest)) as [E1 E2].
    destruct (processPendingOperations _ _ _ _) as [w1 result].
    simpl in E1, E2. unfold members, cursors.
    repeat case_match; simpl; by rewrite E1, E2.
Qed.

Lemma step_other_documents_witness :
  let w := fst (run first_join_trace (sample_world "" (Some (Num 1)))) in
  members (fst (step (Disconnect 1) w)) "doc2" = members w "doc2"
  ∧ cursors (fst (step (Disconnect 1) w)) "doc2" = cursors w "doc2".
Proof.
  set (w := fst _).
  apply (step_other_documents (Disconnect 1) w "doc2").
  vm_compute. discriminate.
Defined.

End other_documents.

(** ** Editing end to end *)

Section editing.

(** X27.  One edit end to end: when a socket with edit access sends an
    operation for a document whose queue is empty and no timer is
    pending, the operation is queued under the sender's id, relayed to
    the room, and the timer that follows stores the content with that
    operation applied and sends it to the room and to the sender; the
    queue is empty again. *)
Theorem single_edit (now now' : Z) (random : string) (s : nat) (d : string)
    (operation : Operation) (w : World) (socket : Socket.t)
    (document : Doc.t) (role : string) (permission : option string) :
  sockets w !! s = Some socket →
  d ≠ "" →
  checkDocumentAccess w now (Socket.userId socket) d
    (Socket.organizationId socket) "edit" = Granted document role permission →
  pendingOperations w !! d = None →
  timers w = [] →
  let sent := document_operation now random s (Some d) (Some operation) w in
  let fired := timer_fired now' None (fst sent) in
  let content := applyOperation (Doc.content document) operation in
  map Op.userId <$> pendingOperations (fst sent) !! d
  = Some [Socket.userId socket]
  ∧ Doc.content <$> documents (fst fired) !! d = Some content
  ∧ pendingOperations (fst fired) !! d = None
  ∧ timers (fst fired) = []
  ∧ snd fired
    = [(ToRoomExcept d s, DocumentUpdated content (js_increment (Doc.version document)));
       (ToSocket s, DocumentUpdated content (js_increment (Doc.version document)))].
Proof.
  intros Hs Hd Hacc Hq Ht.
  assert (Hdoc : documents w !! d = Some document).
  { revert Hacc. unfold checkDocumentAccess.
    destruct (documents w !! d); [| done].
    repeat case_match; intros; by simplify_eq. }
  unfold document_operation, truthy. rewrite Hs.
  destruct (String.eqb_spec d ""); [done |]. rewrite Hacc, Hq.
  unfold timer_fired, set_activities, set_timers, set_pendingOperations.
  simpl. rewrite Ht. simpl.
  unfold processPendingOperations, set_pendingOperations, set_documents.
  simpl. rewrite lookup_insert_eq, Hdoc. simpl.
  rewrite lookup_insert_eq, lookup_delete_eq. simpl. done.
Qed.

Lemma single_edit_witness :
  let w := fst (run [Connection 2 "bob" bob "org1"] (sample_world "hello" None)) in
  Doc.content <$>
    documents
      (fst (timer_fired 600 None
              (fst (document_operation 20 "0.5" 2 (Some "doc1")
                      (Some scenario_A) w)))) !! "doc1"
  = Some (applyOperation "hello" scenario_A).
Proof.
  set (w := fst _).
  destruct (single_edit 20 600 "0.5" 2 "doc1" scenario_A w
              (Socket.make "bob" bob "org1" None None [])
              (sample_doc "Notes" "hello" None) "collaborator" (Some "edit"))
    as (_ & H & _).
  - vm_compute; reflexivity.
  - discriminate.
  - vm_compute; reflexivity.
  - vm_compute; reflexivity.
  - reflexivity.
  - exact H.
Defined.

(** X28.  A member of the organization who neither owns a document nor
    holds an active share of it can look but not touch: on a document
    visible to the organization, [join-document] lets the socket in as a
    viewer, while [document-operation] is refused with 'Access denied',
    queues nothing and relays nothing. *)
Theorem viewer_cannot_edit (now : Z) (random : string) (s : nat) (d : string)
    (operation : Operation) (w : World) (socket : Socket.t)
    (document : Doc.t) (owner : User.t) :
  sockets w !! s = Some socket →
  d ≠ "" →
  documents w !! d = Some document →
  Doc.organization document = Socket.organizationId socket →
  Doc.status document ≠ "deleted" →
  Doc.visibility document = "organization" →
  users w !! Doc.owner document = Some owner →
  User.organization owner = None
  ∨ User.organization owner = Some (Socket.organizationId socket) →
  Doc.owner document ≠ Socket.userId socket →
  find (λ share, (Share.user share =? Socket.userId socket)%string
                 && Share.isActive share) (Doc.sharedWith document) = None →
  checkDocumentAccess w now (Socket.userId socket) d
    (Socket.organizationId socket) "view" = Granted document "viewer" None
  ∧ (Socket.userId socket ∈ members (fst (join_document now s (Some d) w)) d)
  ∧ document_operation now random s (Some d) (Some operation) w
    = (w, [(ToSocket s, ErrorMessage "Access denied")]).
Proof.
  intros Hs Hd Hdoc Horg Hst Hvis Ho Hoo Hown Hfind.
  assert (Hacc : ∀ p, checkDocumentAccess w now (Socket.userId socket) d
                        (Socket.organizationId socket) p
                      = if (p =? "view")%string
                        then Granted document "viewer" None
                        else Denied "Access denied").
  { intros p. unfold checkDocumentAccess.
    rewrite Hdoc, Horg, String.eqb_refl. simpl.
    destruct (String.eqb_spec (Doc.status document) "deleted"); [done |]. simpl.
    rewrite Ho.
    destruct (String.eqb_spec (Doc.owner document) (Socket.userId socket));
      [done |].
    rewrite Hfind, Hvis. simpl.
    pose proof Hoo as [E|E]; rewrite E, ?String.eqb_refl; done. }
  pose proof (Hacc "view") as Hview. simpl in Hview.
  split_and!.
  - done.
  - rewrite (join_document_granted now s d w socket document "viewer" None)
      by done.
    unfold members. simpl. rewrite lookup_insert_eq. simpl.
    unfold set_add. case_decide; [done |].
    apply elem_of_app. right. apply list_elem_of_here.
  - unfold document_operation, truthy. rewrite Hs.
    destruct (String.eqb_spec d ""); [done |]. by rewrite Hacc.
Qed.

Lemma viewer_cannot_edit_witness :
  document_operation 20 "0.5" 2 (Some "doc2") (Some scenario_A)
    (fst (run [Connection 2 "carol" bob "org1"] (sample_world "" None)))
  = (fst (run [Connection 2 "carol" bob "org1"] (sample_world "" None)),
     [(ToSocket 2%nat, ErrorMessage "Access denied")]).
Proof.
  apply (viewer_cannot_edit 20 "0.5" 2 "doc2" scenario_A _
           (Socket.make "carol" bob "org1" None None [])
           (sample_doc "Plan" "" None) alice).
  - vm_compute; reflexivity.
  - discriminate.
  - vm_compute; reflexivity.
  - reflexivity.
  - discriminate.
  - reflexivity.
  - reflexivity.
  - right. reflexivity.
  - discriminate.
  - reflexivity.
Defined.

End editing.

(** ** Authentication *)

Section authentication_facts.

Variable verify : string → option (option string).
Variable accounts : gmap string Account.t.
Variable organizations : gmap string Organization.t.

(** X29.  A socket is authenticated only with a token that verifies to
    the id of a stored, active user whose organization exists, is active
    and has no subscription or an active one; the socket then carries
    that id, that user, and the id and domain of that organization. *)
Theorem authenticated_sound (handshake : Handshake.t)
    (userId : string) (user : User.t) (organizationId organizationDomain : string) :
  authenticateSocket verify accounts organizations handshake
  = Authenticated userId user organizationId organizationDomain →
  ∃ token account organization,
    token ≠ ""
    ∧ verify token = Some (Some userId)
    ∧ accounts !! userId = Some account
    ∧ Account.isActive account = true
    ∧ Account.profile account = user
    ∧ User.organization user = Some organizationId
    ∧ organizations !! organizationId = Some organization
    ∧ Organization.isActive organization = true
    ∧ (Organization.subscription organization = None
       ∨ Organization.subscription organization = Some (Some "active"))
    ∧ Organization.domain organization = organizationDomain.
Proof.
  unfold authenticateSocket. intros H.
  destruct (truthy _) as [token|] eqn:Htoken; [| done].
  destruct (verify token) as [[id|]|] eqn:Hv; [| done | done]. simpl in H.
  destruct (accounts !! id) as [account|] eqn:Ha; [| done]. simpl in H.
  destruct (Account.isActive account) eqn:Hact; [| done]. simpl in H.
  destruct (User.organization (Account.profile account)) as [oid|] eqn:Hoid;
    [| done]. simpl in H.
  destruct (organizations !! oid) as [org|] eqn:Ho; [| done]. simpl in H.
  destruct (Organization.isActive org) eqn:Hoact; [| done]. simpl in H.
  assert (Hne : token ≠ "").
  { unfold truthy in Htoken. repeat case_match; simplify_eq;
      by apply String.eqb_neq. }
  destruct (Organization.subscription org) as [[status|]|] eqn:Hsub;
    [| done |].
  - destruct (String.eqb_spec status "active") as [->|]; [| done].
    simpl in H. simplify_eq. exists token, account, org. split_and!; try done.
    by right.
  - simplify_eq. exists token, account, org. split_and!; try done. by left.
Qed.

Lemma replace_first_prefix (pattern replacement s : string) :
  replace_first pattern replacement (pattern +:+ s) = replacement +:+ s.
Proof.
  assert (Hp : String.prefix pattern (pattern +:+ s) = true).
  { induction pattern as [|c p IH].
    - rewrite append_nil_l. by destruct s.
    - rewrite append_cons. simpl. by destruct (ascii_dec c c). }
  assert (Hd : JSString.drop (String.length pattern) (pattern +:+ s) = s)
    by apply drop_append_exact.
  destruct pattern as [|c p].
  - rewrite append_nil_l. by destruct s.
  - rewrite append_cons in *. unfold replace_first. fold replace_first.
    by rewrite Hp, Hd.
Qed.

(** X30.  The token is taken from [handshake.auth.token], and only when
    that is missing or empty from the [authorization] header with its
    first 'Bearer ' removed: a header 'Bearer t' authenticates exactly as
    the token [t] does, a present token wins over any header, and a
    handshake with neither is refused with 'Authentication token
    required'. *)
Theorem token_sources (token : string) (header : option string) :
  token ≠ "" →
  authenticateSocket verify accounts organizations
    (Handshake.make None (Some ("Bearer " +:+ token)))
  = authenticateSocket verify accounts organizations
      (Handshake.make (Some token) header)
  ∧ authenticateSocket verify accounts organizations
      (Handshake.make (Some "") (Some ("Bearer " +:+ token)))
    = authenticateSocket verify accounts organizations
        (Handshake.make (Some token) header)
  ∧ authenticateSocket verify accounts organizations (Handshake.make None None)
    = Rejected "Authentication token required"
  ∧ authenticateSocket verify accounts organizations
      (Handshake.make None (Some "Bearer "))
    = Rejected "Authentication token required".
Proof.
  intros Hne. unfold authenticateSocket. simpl Handshake.authToken.
  simpl Handshake.authorization.
  assert (Ht : truthy (Some token) = Some token).
  { unfold truthy. by destruct (String.eqb_spec token ""). }
  rewrite Ht. split_and!.
  - change (truthy None) with (@None string). cbn [fmap option_fmap option_map].
    by rewrite (replace_first_prefix "Bearer " "" token), append_nil_l, Ht.
  - change (truthy (Some "")) with (@None string).
    cbn [fmap option_fmap option_map].
    by rewrite (replace_first_prefix "Bearer " "" token), append_nil_l, Ht.
  - done.
  - done.
Qed.

End authentication_facts.

Lemma token_sources_witness :
  authenticateSocket (λ _, None) ∅ ∅ (Handshake.make None (Some ("Bearer " +:+ "abc")))
  = authenticateSocket (λ _, None) ∅ ∅ (Handshake.make (Some "abc") None).
Proof.
  apply (token_sources (λ _, None) ∅ ∅ "abc" None). discriminate.
Defined.

Lemma authenticated_sound_witness :
  ∃ token account organization,
    token ≠ ""
    ∧ (if (token =? "good")%string then Some (Some "alice") else None)
      = Some (Some "alice")
    ∧ ({["alice" := Account.make alice true]} : gmap string Account.t) !! "alice"
      = Some account
    ∧ Account.isActive account = true
    ∧ Account.profile account = alice
    ∧ User.organization alice = Some "org1"
    ∧ ({["org1" := Organization.make "Org" "org1.example" true (Some (Some "active"))]}
         : gmap string Organization.t) !! "org1" = Some organization
    ∧ Organization.isActive organization = true
    ∧ (Organization.subscription organization = None
       ∨ Organization.subscription organization = Some (Some "active"))
    ∧ Organization.domain organization = "org1.example".
Proof.
  apply (authenticated_sound
           (λ token, if (token =? "good")%string then Some (Some "alice") else None)
           {["alice" := Account.make alice true]}
           {["org1" := Organization.make "Org" "org1.example" true (Some (Some "active"))]}
           (Handshake.make (Some "good") None) "alice" alice "org1" "org1.example").
  vm_compute. reflexivity.
Defined.
